(** * Moodzie API: the streak tracker and the period aggregator of
      the [MoodLogService] class

    The development embeds the service's private helpers
    [updateUserStreak], [groupLogsByHour], [groupLogsByDay],
    [groupLogsByDate], [getCategoriesForPeriod] and the bodies of
    [getMoodSummary] and [getMoodStatsByPeriod], together with the parts
    of date-fns, of TypeORM's date columns and of the JavaScript runtime
    they call, and proves the properties the specification states about
    them. *)

From Stdlib Require Import ZArith List Lia Bool Ascii String.
From Stdlib Require Import Floats.PrimFloat Floats.FloatOps Floats.SpecFloat.
From Stdlib Require Import Numbers.Cyclic.Int63.Uint63.
From stdpp Require Import gmap strings pretty sorting.

Local Open Scope Z_scope.

(* ===================================================================== *)
(** * Part I: definitions *)
(* ===================================================================== *)

(** ** JavaScript [Date] values

    A [Date] is represented by its local wall-clock reading in
    milliseconds since the local 1970-01-01T00:00 (one fixed zone, no
    daylight saving).  Every date function the service calls
    ([startOfDay], [getHours], [getDay], [format], ...) reads local time
    only, and [getTime] differs from the local reading by a constant. *)

Definition Date : Type := Z.

Definition MS_PER_HOUR : Z := 3600000.
Definition MS_PER_DAY : Z := 86400000.

(** Number of whole local days since the epoch (floor division). *)
Definition localDay (d : Date) : Z := d / MS_PER_DAY.

(** date-fns [startOfDay]: the same calendar day at 00:00:00.000. *)
Definition startOfDay (d : Date) : Date := localDay d * MS_PER_DAY.

(** date-fns [endOfDay]: the same calendar day at 23:59:59.999. *)
Definition endOfDay (d : Date) : Date := startOfDay d + (MS_PER_DAY - 1).

(** date-fns [differenceInCalendarDays l r]: signed number of calendar
    days from [r] to [l], time of day ignored. *)
Definition differenceInCalendarDays (l r : Date) : Z :=
  localDay (startOfDay l) - localDay (startOfDay r).

(** [Date.prototype.getHours]. *)
Definition getHours (d : Date) : Z := (d mod MS_PER_DAY) / MS_PER_HOUR.

(** [Date.prototype.getDay]: 0 is Sunday; 1970-01-01 was a Thursday. *)
Definition getDay (d : Date) : Z := (localDay d + 4) mod 7.

(** [date.setDate(date.getDate() + i)] on a copy of [d]. *)
Definition addDays (d : Date) (i : Z) : Date := d + i * MS_PER_DAY.

(** ** The [MoodStreaks] entity (mood-streaks.entity.ts)

    The ORM-managed columns [id], [user], [createdAt] and [updatedAt]
    play no role in the streak logic and are left out.  The four date
    columns are declared [nullable: true]. *)

Record MoodStreaks : Type := mkMoodStreaks {
  userId : string;
  currentStreak : Z;
  longestStreak : Z;
  lastLogDate : option Date;
  isActive : bool;
  currentStreakStartDate : option Date;
  longestStreakStartDate : option Date;
  longestStreakEndDate : option Date
}.

(** Field assignments [streakRecord.f = v]. *)
Definition set_currentStreak (v : Z) (r : MoodStreaks) : MoodStreaks :=
  mkMoodStreaks (userId r) v (longestStreak r) (lastLogDate r) (isActive r)
    (currentStreakStartDate r) (longestStreakStartDate r) (longestStreakEndDate r).
Definition set_longestStreak (v : Z) (r : MoodStreaks) : MoodStreaks :=
  mkMoodStreaks (userId r) (currentStreak r) v (lastLogDate r) (isActive r)
    (currentStreakStartDate r) (longestStreakStartDate r) (longestStreakEndDate r).
Definition set_lastLogDate (v : option Date) (r : MoodStreaks) : MoodStreaks :=
  mkMoodStreaks (userId r) (currentStreak r) (longestStreak r) v (isActive r)
    (currentStreakStartDate r) (longestStreakStartDate r) (longestStreakEndDate r).
Definition set_isActive (v : bool) (r : MoodStreaks) : MoodStreaks :=
  mkMoodStreaks (userId r) (currentStreak r) (longestStreak r) (lastLogDate r) v
    (currentStreakStartDate r) (longestStreakStartDate r) (longestStreakEndDate r).
Definition set_currentStreakStartDate (v : option Date) (r : MoodStreaks) : MoodStreaks :=
  mkMoodStreaks (userId r) (currentStreak r) (longestStreak r) (lastLogDate r) (isActive r)
    v (longestStreakStartDate r) (longestStreakEndDate r).
Definition set_longestStreakStartDate (v : option Date) (r : MoodStreaks) : MoodStreaks :=
  mkMoodStreaks (userId r) (currentStreak r) (longestStreak r) (lastLogDate r) (isActive r)
    (currentStreakStartDate r) v (longestStreakEndDate r).
Definition set_longestStreakEndDate (v : option Date) (r : MoodStreaks) : MoodStreaks :=
  mkMoodStreaks (userId r) (currentStreak r) (longestStreak r) (lastLogDate r) (isActive r)
    (currentStreakStartDate r) (longestStreakStartDate r) v.

(** ** [updateUserStreak]

    [streakAfterLog uid found logDate] is the record handed to
    [moodStreaksRepository.save]: [found] is what [findOne] returned for
    the user ([None] when there is no row), each date property being
    the [Date] that [startOfDay] reads it as. *)

Definition streakAfterLog (uid : string) (found : option MoodStreaks)
    (logDate : Date) : MoodStreaks :=
  let today := startOfDay logDate in
  match found with
  | None =>
      (* First time logging mood - create new streak record *)
      mkMoodStreaks uid 1 1 (Some today) true (Some today) (Some today) (Some today)
  | Some streakRecord =>
      match option_map startOfDay (lastLogDate streakRecord) with
      | None =>
          (* Should not happen but handle it anyway *)
          let streakRecord := set_currentStreak 1 streakRecord in
          let streakRecord := set_lastLogDate (Some today) streakRecord in
          let streakRecord := set_isActive true streakRecord in
          set_currentStreakStartDate (Some today) streakRecord
      | Some lastLog =>
          let daysDifference := differenceInCalendarDays today lastLog in
          if daysDifference =? 0 then
            (* Same day - no streak change, just update last log date *)
            set_lastLogDate (Some today) streakRecord
          else if daysDifference =? 1 then
            (* Next consecutive day - increment streak *)
            let streakRecord :=
              set_currentStreak (currentStreak streakRecord + 1) streakRecord in
            let streakRecord := set_lastLogDate (Some today) streakRecord in
            let streakRecord := set_isActive true streakRecord in
            (* Update longest streak if current streak is now longer *)
            if longestStreak streakRecord <? currentStreak streakRecord then
              let streakRecord :=
                set_longestStreak (currentStreak streakRecord) streakRecord in
              let streakRecord :=
                set_longestStreakStartDate (currentStreakStartDate streakRecord)
                  streakRecord in
              set_longestStreakEndDate (Some today) streakRecord
            else streakRecord
          else if 1 <? daysDifference then
            (* Streak broken - reset streak to 1 *)
            let streakRecord := set_currentStreak 1 streakRecord in
            let streakRecord := set_lastLogDate (Some today) streakRecord in
            let streakRecord := set_currentStreakStartDate (Some today) streakRecord in
            set_isActive true streakRecord
          else streakRecord
      end
  end.

(** The signed gap, in calendar days, between a log date and the stored
    [lastLogDate]. *)
Definition gap (logDate last : Date) : Z := localDay logDate - localDay last.

(** ** The streak table

    The four date columns of the entity are declared [type: 'date'].
    TypeORM writes a [Date] object into such a column as the
    'YYYY-MM-DD' of its local calendar day and writes a string as it is
    ([DateUtils.mixedDateToDateString]); it hydrates the column as that
    'YYYY-MM-DD' string, not as a [Date].  A date property of a record
    in memory therefore holds either a [Date] object, assigned by the
    update, or the string of a calendar day, hydrated by [findOne] and
    not assigned since.  The string is represented by the number of its
    day. *)
Inductive DateValue : Type :=
| DateObject (d : Date)
| DateString (day : Z).

(** date-fns reads its argument with [toDate]: a [Date] as it is, a
    string with [new Date(string)], which for 'YYYY-MM-DD' is midnight
    UTC of that day.  [tz] is the offset of local time from UTC in
    milliseconds, negative west of UTC (one fixed zone, as for [Date]). *)
Definition toDate (tz : Z) (v : DateValue) : Date :=
  match v with
  | DateObject d => d
  | DateString day => day * MS_PER_DAY + tz
  end.

(** The calendar day a value is written to its column as. *)
Definition columnDay (v : DateValue) : Z :=
  match v with
  | DateObject d => localDay d
  | DateString day => day
  end.

(** The [MoodStreaks] entity with the values its date properties hold
    in memory. *)
Module StreakRecord.
Record t : Type := mk {
  userId : string;
  currentStreak : Z;
  longestStreak : Z;
  lastLogDate : option DateValue;
  isActive : bool;
  currentStreakStartDate : option DateValue;
  longestStreakStartDate : option DateValue;
  longestStreakEndDate : option DateValue
}.

(** Field assignments [streakRecord.f = v]. *)
Definition set_currentStreak (v : Z) (r : t) : t :=
  mk (userId r) v (longestStreak r) (lastLogDate r) (isActive r)
    (currentStreakStartDate r) (longestStreakStartDate r) (longestStreakEndDate r).
Definition set_longestStreak (v : Z) (r : t) : t :=
  mk (userId r) (currentStreak r) v (lastLogDate r) (isActive r)
    (currentStreakStartDate r) (longestStreakStartDate r) (longestStreakEndDate r).
Definition set_lastLogDate (v : option DateValue) (r : t) : t :=
  mk (userId r) (currentStreak r) (longestStreak r) v (isActive r)
    (currentStreakStartDate r) (longestStreakStartDate r) (longestStreakEndDate r).
Definition set_isActive (v : bool) (r : t) : t :=
  mk (userId r) (currentStreak r) (longestStreak r) (lastLogDate r) v
    (currentStreakStartDate r) (longestStreakStartDate r) (longestStreakEndDate r).
Definition set_currentStreakStartDate (v : option DateValue) (r : t) : t :=
  mk (userId r) (currentStreak r) (longestStreak r) (lastLogDate r) (isActive r)
    v (longestStreakStartDate r) (longestStreakEndDate r).
Definition set_longestStreakStartDate (v : option DateValue) (r : t) : t :=
  mk (userId r) (currentStreak r) (longestStreak r) (lastLogDate r) (isActive r)
    (currentStreakStartDate r) v (longestStreakEndDate r).
Definition set_longestStreakEndDate (v : option DateValue) (r : t) : t :=
  mk (userId r) (currentStreak r) (longestStreak r) (lastLogDate r) (isActive r)
    (currentStreakStartDate r) (longestStreakStartDate r) v.
End StreakRecord.

(** The record as the date functions read it: every date property
    through [toDate]. *)
Definition asRead (tz : Z) (r : StreakRecord.t) : MoodStreaks :=
  mkMoodStreaks (StreakRecord.userId r) (StreakRecord.currentStreak r)
    (StreakRecord.longestStreak r)
    (option_map (toDate tz) (StreakRecord.lastLogDate r))
    (StreakRecord.isActive r)
    (option_map (toDate tz) (StreakRecord.currentStreakStartDate r))
    (option_map (toDate tz) (StreakRecord.longestStreakStartDate r))
    (option_map (toDate tz) (StreakRecord.longestStreakEndDate r)).

(** What [save] leaves in the table and a later [findOne] hydrates:
    every date property as the string of the day it was written as. *)
Definition persist (r : StreakRecord.t) : StreakRecord.t :=
  let column := option_map (fun v => DateString (columnDay v)) in
  StreakRecord.mk (StreakRecord.userId r) (StreakRecord.currentStreak r)
    (StreakRecord.longestStreak r)
    (column (StreakRecord.lastLogDate r))
    (StreakRecord.isActive r)
    (column (StreakRecord.currentStreakStartDate r))
    (column (StreakRecord.longestStreakStartDate r))
    (column (StreakRecord.longestStreakEndDate r)).

(** The calendar days a row stores, each as the [Date] at local
    midnight of that day. *)
Definition storedDays (row : StreakRecord.t) : MoodStreaks :=
  let day := option_map (fun v => columnDay v * MS_PER_DAY) in
  mkMoodStreaks (StreakRecord.userId row) (StreakRecord.currentStreak row)
    (StreakRecord.longestStreak row)
    (day (StreakRecord.lastLogDate row))
    (StreakRecord.isActive row)
    (day (StreakRecord.currentStreakStartDate row))
    (day (StreakRecord.longestStreakStartDate row))
    (day (StreakRecord.longestStreakEndDate row)).

(** The body of [updateUserStreak] on the values in memory:
    [streakRecordAfterLog tz userId found logDate] is the record handed
    to [save], [found] being what [findOne] hydrated.  The dates it
    assigns are [Date] objects, the ones it leaves alone stay as they
    were found, and [longestStreakStartDate] receives whatever
    [currentStreakStartDate] holds.  [streakAfterLog] is this function
    on the record as read (lemma [asRead_streakRecordAfterLog]). *)
Definition streakRecordAfterLog (tz : Z) (userId : string)
    (found : option StreakRecord.t) (logDate : Date) : StreakRecord.t :=
  let today := startOfDay logDate in
  match found with
  | None =>
      (* First time logging mood - create new streak record *)
      StreakRecord.mk userId 1 1 (Some (DateObject today)) true
        (Some (DateObject today)) (Some (DateObject today))
        (Some (DateObject today))
  | Some streakRecord =>
      match option_map (fun v => startOfDay (toDate tz v))
              (StreakRecord.lastLogDate streakRecord) with
      | None =>
          (* Should not happen but handle it anyway *)
          let streakRecord := StreakRecord.set_currentStreak 1 streakRecord in
          let streakRecord :=
            StreakRecord.set_lastLogDate (Some (DateObject today)) streakRecord in
          let streakRecord := StreakRecord.set_isActive true streakRecord in
          StreakRecord.set_currentStreakStartDate (Some (DateObject today))
            streakRecord
      | Some lastLog =>
          let daysDifference := differenceInCalendarDays today lastLog in
          if daysDifference =? 0 then
            (* Same day - no streak change, just update last log date *)
            StreakRecord.set_lastLogDate (Some (DateObject today)) streakRecord
          else if daysDifference =? 1 then
            (* Next consecutive day - increment streak *)
            let streakRecord :=
              StreakRecord.set_currentStreak
                (StreakRecord.currentStreak streakRecord + 1) streakRecord in
            let streakRecord :=
              StreakRecord.set_lastLogDate (Some (DateObject today)) streakRecord in
            let streakRecord := StreakRecord.set_isActive true streakRecord in
            (* Update longest streak if current streak is now longer *)
            if StreakRecord.longestStreak streakRecord <?
               StreakRecord.currentStreak streakRecord then
              let streakRecord :=
                StreakRecord.set_longestStreak
                  (StreakRecord.currentStreak streakRecord) streakRecord in
              let streakRecord :=
                StreakRecord.set_longestStreakStartDate
                  (StreakRecord.currentStreakStartDate streakRecord)
                  streakRecord in
              StreakRecord.set_longestStreakEndDate (Some (DateObject today))
                streakRecord
            else streakRecord
          else if 1 <? daysDifference then
            (* Streak broken - reset streak to 1 *)
            let streakRecord := StreakRecord.set_currentStreak 1 streakRecord in
            let streakRecord :=
              StreakRecord.set_lastLogDate (Some (DateObject today)) streakRecord in
            let streakRecord :=
              StreakRecord.set_currentStreakStartDate (Some (DateObject today))
                streakRecord in
            StreakRecord.set_isActive true streakRecord
          else streakRecord
      end
  end.

(** The table holds at most one row per user (unique index on
    [userId]); [findOne] is a lookup, hydrating the row, and [save] an
    insert-or-replace of what [persist] writes.  The result is the new
    table and the record [save] returns. *)
Definition updateUserStreak (tz : Z) (repo : gmap string StreakRecord.t)
    (userId : string) (logDate : Date)
    : gmap string StreakRecord.t * StreakRecord.t :=
  let streakRecord := streakRecordAfterLog tz userId (repo !! userId) logDate in
  (<[userId := persist streakRecord]> repo, streakRecord).

(** Rows obtained from a user's first-ever log by any number of further
    logs, each update finding the row the one before it saved. *)
Inductive reachable (tz : Z) : StreakRecord.t -> Prop :=
| reach_first uid logDate :
    reachable tz (persist (streakRecordAfterLog tz uid None logDate))
| reach_log row logDate :
    reachable tz row ->
    reachable tz
      (persist (streakRecordAfterLog tz (StreakRecord.userId row) (Some row)
                  logDate)).

(** The row of one user after logging a list of dates in order,
    starting from the row [found]. *)
Fixpoint logAll (tz : Z) (uid : string) (found : option StreakRecord.t)
    (dates : list Date) : option StreakRecord.t :=
  match dates with
  | [] => found
  | d :: ds =>
      logAll tz uid (Some (persist (streakRecordAfterLog tz uid found d))) ds
  end.

(** Comparison of two optional dates at calendar-day granularity. *)
Definition day_le (a b : option Date) : Prop :=
  match a, b with
  | Some x, Some y => localDay x <= localDay y
  | _, _ => False
  end.

Definition streak_invariant (r : MoodStreaks) : Prop :=
  longestStreak r >= currentStreak r /\
  day_le (currentStreakStartDate r) (lastLogDate r).

(** The invariant strengthened by [currentStreak >= 1], which makes it
    inductive. *)
Definition streak_good (r : MoodStreaks) : Prop :=
  1 <= currentStreak r /\ streak_invariant r.

(** Tables obtained from the empty table by any sequence of
    [updateUserStreak] calls. *)
Inductive repo_reachable (tz : Z) : gmap string StreakRecord.t -> Prop :=
| repo_empty : repo_reachable tz ∅
| repo_update repo uid logDate :
    repo_reachable tz repo ->
    repo_reachable tz (updateUserStreak tz repo uid logDate).1.

(** ** Calendar fields of a [Date]

    [civil n] is the proleptic Gregorian date (year, month 1..12, day of
    month) of local day [n], counted from 1970-01-01 by stepping one day
    at a time. *)

Definition isLeapYear (y : Z) : bool :=
  (y mod 4 =? 0) && (negb (y mod 100 =? 0) || (y mod 400 =? 0)).

Definition daysInMonth (y m : Z) : Z :=
  if m =? 2 then (if isLeapYear y then 29 else 28)
  else if (m =? 4) || (m =? 6) || (m =? 9) || (m =? 11) then 30
  else 31.

Definition next_day (c : Z * Z * Z) : Z * Z * Z :=
  let '(y, m, d) := c in
  if d <? daysInMonth y m then (y, m, d + 1)
  else if m <? 12 then (y, m + 1, 1)
  else (y + 1, 1, 1).

Definition prev_day (c : Z * Z * Z) : Z * Z * Z :=
  let '(y, m, d) := c in
  if 1 <? d then (y, m, d - 1)
  else if 1 <? m then (y, m - 1, daysInMonth y (m - 1))
  else (y - 1, 12, 31).

Definition civil (n : Z) : Z * Z * Z :=
  if 0 <=? n then Nat.iter (Z.to_nat n) next_day (1970, 1, 1)
  else Nat.iter (Z.to_nat (- n)) prev_day (1970, 1, 1).

Definition getFullYear (d : Date) : Z := (civil (localDay d)).1.1.
(** [getMonth] is zero-based. *)
Definition getMonth (d : Date) : Z := (civil (localDay d)).1.2 - 1.
Definition getDate (d : Date) : Z := (civil (localDay d)).2.

(** date-fns [startOfWeek] / [endOfWeek] with [weekStartsOn] given. *)
Definition startOfWeek (d : Date) (weekStartsOn : Z) : Date :=
  let day := getDay d in
  let diff := (if day <? weekStartsOn then 7 else 0) + day - weekStartsOn in
  startOfDay (addDays d (- diff)).
Definition endOfWeek (d : Date) (weekStartsOn : Z) : Date :=
  let day := getDay d in
  let diff := (if day <? weekStartsOn then -7 else 0) + 6 - (day - weekStartsOn) in
  endOfDay (addDays d diff).

(** date-fns [startOfMonth] / [endOfMonth]. *)
Definition startOfMonth (d : Date) : Date :=
  startOfDay (addDays d (1 - getDate d)).
Definition endOfMonth (d : Date) : Date :=
  endOfDay (addDays d (daysInMonth (getFullYear d) (getMonth d + 1) - getDate d)).

(** ** date-fns [format(date, 'yyyy-MM-dd')] *)

Fixpoint repeatChar (c : ascii) (n : nat) : string :=
  match n with
  | O => EmptyString
  | S n' => String c (repeatChar c n')
  end.

(** [String.prototype.padStart] with a one-character filler. *)
Definition padStart (s : string) (targetLength : nat) (c : ascii) : string :=
  repeatChar c (targetLength - String.length s) +:+ s.

(** date-fns [addLeadingZeros]: sign, then the decimal digits of the
    absolute value padded on the left with zeros. *)
Definition addLeadingZeros (number : Z) (targetLength : nat) : string :=
  (if number <? 0 then "-" else EmptyString) +:+
  padStart (pretty (Z.abs number)) targetLength "0".

(** The [yyyy] token prints year [y <= 0] as [1 - y]. *)
Definition formatDay (n : Z) : string :=
  let '(y, m, d) := civil n in
  let year := if 0 <? y then y else 1 - y in
  addLeadingZeros year 4 +:+ "-" +:+ addLeadingZeros m 2 +:+ "-" +:+
  addLeadingZeros d 2.

Definition format (d : Date) : string := formatDay (localDay d).

(** Auxiliary notions used to reason about [civil] and [format]:
    the chronological (lexicographic) order on calendar dates, dates
    with month and day in range, the two-digit rendering, and a test for
    a character occurring in a string. *)

Definition civil_lt (a b : Z * Z * Z) : Prop :=
  let '(y1, m1, d1) := a in
  let '(y2, m2, d2) := b in
  y1 < y2 \/ (y1 = y2 /\ (m1 < m2 \/ (m1 = m2 /\ d1 < d2))).

Definition civil_valid (c : Z * Z * Z) : Prop :=
  let '(y, m, d) := c in 1 <= m <= 12 /\ 1 <= d <= daysInMonth y m.

Definition twoDigits (n : Z) : string :=
  String (pretty_N_char (Z.to_N (n / 10)))
    (String (pretty_N_char (Z.to_N (n mod 10))) EmptyString).

Fixpoint has_char (c : ascii) (s : string) : bool :=
  match s with
  | EmptyString => false
  | String c' s' => if decide (c = c') then true else has_char c s'
  end.

(** ** Entities read by the aggregator *)

Module Mood.
Record t : Type := mk { name : string; emoji : string; colour : string }.
End Mood.

Module UserMoods.
Record t : Type := mk { id : string; mood : Mood.t }.
End UserMoods.

Module MoodLog.
Record t : Type := mk {
  id : string;
  userId : string;
  userMood : UserMoods.t;
  moodDate : Date
}.
End MoodLog.

(** ** JavaScript runtime pieces *)

(** A computation that returns or throws a [TypeError] (reading a
    property of [undefined]). *)
Inductive Completion (A : Type) : Type :=
| Return (a : A)
| TypeError.
Arguments Return {A} a.
Arguments TypeError {A}.

Definition bind {A B} (c : Completion A) (k : A -> Completion B) : Completion B :=
  match c with
  | Return a => k a
  | TypeError => TypeError
  end.

(** [xs.forEach(f)] threading a mutated object [o] through a callback
    that may throw. *)
Definition forEach {A O} (f : O -> A -> Completion O) (xs : list A) (o : O)
    : Completion O :=
  fold_left (fun acc x => bind acc (fun o' => f o' x)) xs (Return o).

(** Objects as ordered lists of own properties. *)
Section Properties.
Context {K : Type} `{EqDecision K} {V : Type}.

Fixpoint prop_get (k : K) (o : list (K * V)) : option V :=
  match o with
  | [] => None
  | (k', v) :: o' => if decide (k = k') then Some v else prop_get k o'
  end.

(** In-place mutation of the value stored under [k]. *)
Fixpoint prop_alter (f : V -> V) (k : K) (o : list (K * V)) : list (K * V) :=
  match o with
  | [] => []
  | (k', v) :: o' =>
      if decide (k = k') then (k', f v) :: o' else (k', v) :: prop_alter f k o'
  end.

(** [o[k] = v] for a non-index key: an existing property keeps its
    place, a new one goes last (insertion order). *)
Fixpoint prop_set (k : K) (v : V) (o : list (K * V)) : list (K * V) :=
  match o with
  | [] => [(k, v)]
  | (k', v') :: o' =>
      if decide (k = k') then (k, v) :: o' else (k', v') :: prop_set k v o'
  end.

(** [Object.values]. *)
Definition Object_values (o : list (K * V)) : list V := o.*2.

(** The property [kv] after every element of [xs] whose key is [kv]'s
    name has been pushed into its value, in the order of [xs]. *)
Definition placed {A} (key : A -> K) (push : A -> V -> V) (xs : list A)
    (kv : K * V) : K * V :=
  (kv.1,
   fold_left (fun g x => push x g) (filter (fun x => key x = kv.1) xs) kv.2).
End Properties.

(** [o[i] = v] for an integer index [i]: index properties are kept, and
    enumerated, in ascending numeric order. *)
Fixpoint index_set {V} (k : Z) (v : V) (o : list (Z * V)) : list (Z * V) :=
  match o with
  | [] => [(k, v)]
  | (k', v') :: o' =>
      if k <? k' then (k, v) :: o
      else if k =? k' then (k, v) :: o'
      else (k', v') :: index_set k v o'
  end.

(** Own property names of [Object.prototype], which every object literal
    inherits. All of them hold a function or an object, hence are truthy. *)
Definition objectPrototypeKeys : list string :=
  ["constructor"; "__defineGetter__"; "__defineSetter__"; "hasOwnProperty";
   "__lookupGetter__"; "__lookupSetter__"; "isPrototypeOf";
   "propertyIsEnumerable"; "toString"; "valueOf"; "__proto__";
   "toLocaleString"].

(** Reading [o[k]] on an object literal with string keys. *)
Inductive Lookup (V : Type) : Type :=
| Own (v : V)
| Inherited
| Undefined.
Arguments Own {V} v.
Arguments Inherited {V}.
Arguments Undefined {V}.

Definition js_lookup {V} (own : option V) (k : string) : Lookup V :=
  match own with
  | Some v => Own v
  | None => if bool_decide (k ∈ objectPrototypeKeys) then Inherited else Undefined
  end.

(** [Array.prototype.sort] with a comparator: a stable insertion sort. *)
Fixpoint sort_insert {A} (cmp : A -> A -> Z) (x : A) (l : list A) : list A :=
  match l with
  | [] => [x]
  | y :: l' => if cmp x y <? 0 then x :: l else y :: sort_insert cmp x l'
  end.

Definition Array_sort {A} (cmp : A -> A -> Z) (l : list A) : list A :=
  fold_left (fun acc x => sort_insert cmp x acc) l [].

(** [for (let i = 0; i < n; i++)]: the values [i] takes, in order. *)
Definition upto (n : Z) : list Z := seqZ 0 n.

(** ** [groupLogsByHour] *)

Module HourGroup.
Record t : Type := mk { hour : Z; logs : list MoodLog.t; count : Z }.
(** [g.logs.push(log); g.count++] *)
Definition push (log : MoodLog.t) (g : t) : t :=
  mk (hour g) (logs g ++ [log]) (count g + 1).
End HourGroup.

Definition groupLogsByHour (logs : list MoodLog.t) : Completion (list HourGroup.t) :=
  (* Initialize all hours *)
  let hourGroups :=
    fold_left (fun o i => index_set i (HourGroup.mk i [] 0) o) (upto 24) [] in
  (* Group logs by hour *)
  bind
    (forEach (fun hourGroups log =>
        let hour := getHours (MoodLog.moodDate log) in
        match prop_get hour hourGroups with
        | Some _ => Return (prop_alter (HourGroup.push log) hour hourGroups)
        | None => TypeError
        end) logs hourGroups)
    (fun hourGroups => Return (Object_values hourGroups)).

(** ** [groupLogsByDay] *)

Module DayGroup.
Record t : Type := mk {
  day : string; dayNumber : Z; logs : list MoodLog.t; count : Z
}.
Definition push (log : MoodLog.t) (g : t) : t :=
  mk (day g) (dayNumber g) (logs g ++ [log]) (count g + 1).
End DayGroup.

Definition daysOfWeek : list string :=
  ["Sunday"; "Monday"; "Tuesday"; "Wednesday"; "Thursday"; "Friday"; "Saturday"].

(** [daysOfWeek[day]]; the index is a weekday number, always within
    0..6. *)
Definition weekdayName (day : Z) : string :=
  default EmptyString (daysOfWeek !! Z.to_nat day).

Definition groupLogsByDay (logs : list MoodLog.t) (startDate : Date)
    : Completion (list DayGroup.t) :=
  (* Initialize all days *)
  let dayGroups :=
    fold_left (fun o i =>
        let day := (getDay startDate + i) mod 7 in
        index_set day
          (DayGroup.mk (weekdayName day) day [] 0) o)
      (upto 7) [] in
  (* Group logs by day *)
  bind
    (forEach (fun dayGroups log =>
        let day := getDay (MoodLog.moodDate log) in
        match prop_get day dayGroups with
        | Some _ => Return (prop_alter (DayGroup.push log) day dayGroups)
        | None => TypeError
        end) logs dayGroups)
    (fun dayGroups =>
       Return (Array_sort
                 (fun a b => DayGroup.dayNumber a - DayGroup.dayNumber b)
                 (Object_values dayGroups))).

(** ** [groupLogsByDate] *)

Module DateGroup.
Record t : Type := mk {
  date : string; dateObj : Date; logs : list MoodLog.t; count : Z
}.
Definition push (log : MoodLog.t) (g : t) : t :=
  mk (date g) (dateObj g) (logs g ++ [log]) (count g + 1).
End DateGroup.

Definition groupLogsByDate (logs : list MoodLog.t) (startDate endDate : Date)
    : Completion (list DateGroup.t) :=
  let numDays := differenceInCalendarDays endDate startDate + 1 in
  (* Initialize all dates in the month *)
  let dateGroups :=
    fold_left (fun o i =>
        let date := addDays startDate i in
        let dateStr := format date in
        prop_set dateStr (DateGroup.mk dateStr date [] 0) o)
      (upto numDays) [] in
  (* Group logs by date *)
  bind
    (forEach (fun dateGroups log =>
        let dateStr := format (MoodLog.moodDate log) in
        match js_lookup (prop_get dateStr dateGroups) dateStr with
        | Own _ => Return (prop_alter (DateGroup.push log) dateStr dateGroups)
        | Inherited => TypeError
        | Undefined => Return dateGroups
        end) logs dateGroups)
    (fun dateGroups =>
       Return (Array_sort
                 (fun a b => DateGroup.dateObj a - DateGroup.dateObj b)
                 (Object_values dateGroups))).

(** ** [getCategoriesForPeriod] *)

Inductive Period : Type := PeriodDay | PeriodWeek | PeriodMonth.

(** A category is an hour number or a weekday name / ISO date string. *)
Inductive Category : Type :=
| CatNumber (n : Z)
| CatString (s : string).

Definition getCategoriesForPeriod (period : Period) (startDate endDate : Date)
    : list Category :=
  match period with
  | PeriodDay => CatNumber <$> upto 24
  | PeriodWeek => CatString <$> daysOfWeek
  | PeriodMonth =>
      let numDays := differenceInCalendarDays endDate startDate + 1 in
      (fun i => CatString (format (addDays startDate i))) <$> upto numDays
  end.

(** The date range both endpoints compute from the clock reading [now]. *)
Definition periodRange (period : Period) (now : Date) : Date * Date :=
  match period with
  | PeriodDay => (startOfDay now, endOfDay now)
  | PeriodWeek => (startOfWeek now 1, endOfWeek now 1)
  | PeriodMonth => (startOfMonth now, endOfMonth now)
  end.

(** ** JavaScript numbers

    [count / logs.length * 100] is computed on IEEE 754 doubles; the
    kernel's primitive floats are the same binary64 numbers with the
    same round-to-nearest-even operations. *)

(** The double nearest to an integer (exact below 2^53). *)
Definition Number (z : Z) : float := PrimFloat.of_uint63 (Uint63.of_Z z).

(** The integer value of a double that holds an integer. *)
Definition Number_toZ (x : float) : Z :=
  match Prim2SF x with
  | S754_finite s m e =>
      let mag := if 0 <=? e then Z.pos m * 2 ^ e else Z.pos m / 2 ^ (- e) in
      if s then - mag else mag
  | _ => 0
  end.

(** [Math.floor] on [0 <= x < 2^51]: adding and subtracting 2^52
    rounds [x] to an integer, which is lowered by one if it went up. *)
Definition Math_floor (x : float) : float :=
  let r := ((x + 0x1p52) - 0x1p52)%float in
  if (x <? r)%float then (r - 1)%float else r.

(** [Math.round] on [0 <= x < 2^51]: the nearest integer, a tie going
    up. *)
Definition Math_round (x : float) : Z :=
  let f := Math_floor x in
  Number_toZ (if (x - f <? 0.5)%float then f else (f + 1)%float).

(** ** [getMoodSummary] *)

Module MoodCount.
Record t : Type := mk {
  count : Z; emoji : string; color : string; percentage : Z
}.
Definition set_count (v : Z) (e : t) : t :=
  mk v (emoji e) (color e) (percentage e).
Definition set_percentage (v : Z) (e : t) : t :=
  mk (count e) (emoji e) (color e) v.
End MoodCount.

Module Summary.
Record t : Type := mk {
  period : Period;
  timeRange : Date * Date;
  totalLogs : Z;
  moodCounts : gmap string MoodCount.t;
  categories : list Category
}.
End Summary.

Definition moodNameOf (log : MoodLog.t) : string :=
  Mood.name (UserMoods.mood (MoodLog.userMood log)).

(** One round of the counting loop.  [summary.moodCounts] is an object
    literal: reading a name it does not own falls through to
    [Object.prototype], so for an inherited name the test
    [!summary.moodCounts[moodName]] is false, no entry is created, and
    the increment is applied to the inherited member instead of an entry
    of [moodCounts]. *)
Definition countMood (moodCounts : gmap string MoodCount.t) (log : MoodLog.t)
    : gmap string MoodCount.t :=
  let mood := UserMoods.mood (MoodLog.userMood log) in
  let moodName := Mood.name mood in
  let moodCounts :=
    match js_lookup (moodCounts !! moodName) moodName with
    | Undefined =>
        <[moodName := MoodCount.mk 0 (Mood.emoji mood) (Mood.colour mood) 0]>
          moodCounts
    | Own _ | Inherited => moodCounts
    end in
  match moodCounts !! moodName with
  | Some entry =>
      <[moodName := MoodCount.set_count (MoodCount.count entry + 1) entry]>
        moodCounts
  | None => moodCounts
  end.

(** [logs.length > 0 ? Math.round((count / logs.length) * 100) : 0] *)
Definition percentageOf (count total : Z) : Z :=
  if 0 <? total
  then Math_round (Number count / Number total * 100)%float
  else 0.

(** [find startDate endDate] stands for the repository query
    [moodLogRepository.find] restricted to the user and the date range.
    Nothing in the body of the [try] block throws, so its [catch] is
    left out. *)
Definition getMoodSummary (find : Date -> Date -> list MoodLog.t) (now : Date)
    (period : Period) : Summary.t :=
  let '(startDate, endDate) := periodRange period now in
  (* Get logs for the period *)
  let logs := find startDate endDate in
  let totalLogs := Z.of_nat (length logs) in
  (* Count occurrences of each mood *)
  let moodCounts := fold_left countMood logs ∅ in
  (* Calculate percentages *)
  let moodCounts :=
    (fun entry =>
       MoodCount.set_percentage
         (percentageOf (MoodCount.count entry) totalLogs) entry) <$> moodCounts in
  Summary.mk period (startDate, endDate) totalLogs moodCounts
    (getCategoriesForPeriod period startDate endDate).

(** ** [getMoodStatsByPeriod] *)

Inductive Buckets : Type :=
| ByHour (data : list HourGroup.t)
| ByDay (data : list DayGroup.t)
| ByDate (data : list DateGroup.t).

Module Stats.
Record t : Type := mk { period : Period; data : Buckets; total : Z }.
End Stats.

(** What the endpoint answers: a body, or the
    [InternalServerErrorException] its [catch] block raises. *)
Inductive Response (A : Type) : Type :=
| Body (a : A)
| InternalServerErrorException (message : string).
Arguments Body {A} a.
Arguments InternalServerErrorException {A} message.

Definition getMoodStatsByPeriod (find : Date -> Date -> list MoodLog.t)
    (now : Date) (period : Period) : Response Stats.t :=
  let '(startDate, endDate) := periodRange period now in
  let logs := find startDate endDate in
  let formattedResults :=
    match period with
    | PeriodDay => bind (groupLogsByHour logs) (fun r => Return (ByHour r))
    | PeriodWeek => bind (groupLogsByDay logs startDate) (fun r => Return (ByDay r))
    | PeriodMonth =>
        bind (groupLogsByDate logs startDate endDate) (fun r => Return (ByDate r))
    end in
  match formattedResults with
  | Return data => Body (Stats.mk period data (Z.of_nat (length logs)))
  | TypeError => InternalServerErrorException "Failed to fetch mood statistics"
  end.

(** Number of logs carrying a mood name, and the first of them. *)
Definition countOf (name : string) (logs : list MoodLog.t) : Z :=
  Z.of_nat (length (filter (fun log => moodNameOf log = name) logs)).

Definition firstOf (name : string) (logs : list MoodLog.t) : option MoodLog.t :=
  head (filter (fun log => moodNameOf log = name) logs).

(** What it means for [buckets] to be the complete day-view answer for
    [logs]: the 24 hours in ascending order, each with the logs of that
    hour and their number. *)
Definition hour_buckets_complete (logs : list MoodLog.t)
    (buckets : list HourGroup.t) : Prop :=
  length buckets = 24%nat /\
  HourGroup.hour <$> buckets =
    [0; 1; 2; 3; 4; 5; 6; 7; 8; 9; 10; 11; 12; 13; 14; 15; 16; 17; 18; 19; 20;
     21; 22; 23] /\
  (forall g, g ∈ buckets ->
     HourGroup.logs g =
       filter (fun log => getHours (MoodLog.moodDate log) = HourGroup.hour g)
         logs /\
     HourGroup.count g = Z.of_nat (length (HourGroup.logs g))) /\
  (forall g, g ∈ buckets ->
     (forall log, log ∈ logs ->
        getHours (MoodLog.moodDate log) <> HourGroup.hour g) ->
     HourGroup.logs g = [] /\ HourGroup.count g = 0).

(** What it means for [buckets] to be the complete month-view answer for
    [logs] on the window [startDate .. endDate]: one bucket per calendar
    date of the window, keyed by pairwise distinct [yyyy-MM-dd] strings,
    in ascending date order, each with the logs rendering to its key. *)
Definition date_buckets_complete (logs : list MoodLog.t)
    (startDate endDate : Date) (buckets : list DateGroup.t) : Prop :=
  let numDays := differenceInCalendarDays endDate startDate + 1 in
  Z.of_nat (length buckets) = numDays /\
  numDays = localDay endDate - localDay startDate + 1 /\
  DateGroup.date <$> buckets =
    (fun i => formatDay (localDay startDate + i)) <$> upto numDays /\
  NoDup (DateGroup.date <$> buckets) /\
  DateGroup.dateObj <$> buckets = addDays startDate <$> upto numDays /\
  StronglySorted Z.lt (DateGroup.dateObj <$> buckets) /\
  (forall g, g ∈ buckets ->
     DateGroup.logs g =
       filter (fun log => format (MoodLog.moodDate log) = DateGroup.date g)
         logs /\
     DateGroup.count g = Z.of_nat (length (DateGroup.logs g))).

(** ** Further notions about streaks

    [run_logged days a b]: every calendar day from [a] to [b] carries
    at least one log. *)
Definition run_logged (days : list Z) (a b : Z) : Prop :=
  forall d, a <= d <= b -> d ∈ days.

(** The streak lengths agree with the date ranges stored beside them,
    and every stored date is the start of its day. *)
Definition streak_ranges_agree (r : MoodStreaks) : Prop :=
  exists s l ls le,
    currentStreakStartDate r = Some s /\ lastLogDate r = Some l /\
    longestStreakStartDate r = Some ls /\ longestStreakEndDate r = Some le /\
    currentStreak r = localDay l - localDay s + 1 /\
    longestStreak r = localDay le - localDay ls + 1 /\
    1 <= currentStreak r <= longestStreak r /\
    localDay le <= localDay l /\
    startOfDay s = s /\ startOfDay l = l /\
    startOfDay ls = ls /\ startOfDay le = le.

(** The record describes the runs of consecutive logged days of [days]:
    the current streak is the run that ends at the latest logged day and
    cannot be extended downwards, the longest streak is a run of logged
    days, and no run of logged days is longer. *)
Definition streak_counts_runs (days : list Z) (r : MoodStreaks) : Prop :=
  exists s l ls le,
    currentStreakStartDate r = Some s /\ lastLogDate r = Some l /\
    longestStreakStartDate r = Some ls /\ longestStreakEndDate r = Some le /\
    localDay l ∈ days /\ (forall d, d ∈ days -> d <= localDay l) /\
    currentStreak r = localDay l - localDay s + 1 /\
    1 <= currentStreak r <= longestStreak r /\
    run_logged days (localDay s) (localDay l) /\
    ((localDay s - 1) ∉ days) /\
    longestStreak r = localDay le - localDay ls + 1 /\
    run_logged days (localDay ls) (localDay le) /\
    (forall a b, a <= b -> run_logged days a b -> b - a + 1 <= longestStreak r).

(** The streak table after the log-creation workflow has called
    [updateUserStreak] for each event (user, log date) in turn. *)
Definition replayStreaks (tz : Z) (events : list (string * Date))
    (repo : gmap string StreakRecord.t) : gmap string StreakRecord.t :=
  fold_left (fun repo e => (updateUserStreak tz repo e.1 e.2).1) events repo.

(** The log dates of one user among the events, in order. *)
Definition datesOf (uid : string) (events : list (string * Date)) : list Date :=
  (filter (fun e => e.1 = uid) events).*2.

(** ** Reading a statistics answer *)

Definition sumZ (l : list Z) : Z := foldr Z.add 0 l.

(** The [count] fields of the buckets, in order. *)
Definition bucketCounts (data : Buckets) : list Z :=
  match data with
  | ByHour l => HourGroup.count <$> l
  | ByDay l => DayGroup.count <$> l
  | ByDate l => DateGroup.count <$> l
  end.

(** The keys of the buckets, in order: the hour, the weekday name, the
    date string. *)
Definition bucketKeys (data : Buckets) : list Category :=
  match data with
  | ByHour l => (fun g => CatNumber (HourGroup.hour g)) <$> l
  | ByDay l => (fun g => CatString (DayGroup.day g)) <$> l
  | ByDate l => (fun g => CatString (DateGroup.date g)) <$> l
  end.

(** The counts of a summary's entries, added up. *)
Definition sumCounts (moodCounts : gmap string MoodCount.t) : Z :=
  map_fold (fun _ entry acc => MoodCount.count entry + acc) 0 moodCounts.

(** ** The endpoints

    What an endpoint answers: the value it returns, or the NestJS HTTP
    exception it raises, which the framework turns into a response with
    the exception's status code. *)

Module Http.
Inductive Exception : Type :=
| BadRequestException (message : string)
| ForbiddenException (message : string)
| NotFoundException (message : string)
| InternalServerErrorException (message : string).

Definition status (e : Exception) : Z :=
  match e with
  | BadRequestException _ => 400
  | ForbiddenException _ => 403
  | NotFoundException _ => 404
  | InternalServerErrorException _ => 500
  end.

Inductive Result (A : Type) : Type :=
| Ok (a : A)
| Throw (e : Exception).
Arguments Ok {A} a.
Arguments Throw {A} e.
End Http.

(** The double quote character of the template strings. *)
Definition dquote : string := String (ascii_of_nat 34) EmptyString.

(** [findMoodLogById].  [table] stands for the rows of the mood-log
    table; [moodLogRepository.findOne({ where: { id } })] yields the
    first row with that id, if any. *)
Definition findMoodLogById (table : list MoodLog.t) (id userId : string)
    : Http.Result MoodLog.t :=
  match head (filter (fun row => MoodLog.id row = id) table) with
  | None =>
      Http.Throw
        (Http.NotFoundException
           ("Mood log with ID " +:+ dquote +:+ id +:+ dquote +:+ " not found"))
  | Some moodLog =>
      (* Check if the log belongs to the user *)
      if bool_decide (MoodLog.userId moodLog <> userId)
      then Http.Throw
             (Http.ForbiddenException "You can only access your own mood logs")
      else Http.Ok moodLog
  end.

(** The period strings the endpoints accept.  [Period_of_string] stands
    for the test [['day', 'week', 'month'].includes(period)] together
    with the reading of the accepted string as a period. *)
Definition Period_to_string (period : Period) : string :=
  match period with
  | PeriodDay => "day"
  | PeriodWeek => "week"
  | PeriodMonth => "month"
  end.

Definition Period_of_string (period : string) : option Period :=
  if bool_decide (period = "day") then Some PeriodDay
  else if bool_decide (period = "week") then Some PeriodWeek
  else if bool_decide (period = "month") then Some PeriodMonth
  else None.

Module MoodLogController.

(** [GET :id], for a request that has passed the class's
    [JwtAuthGuard], which supplies [user].  The parameter is declared
    [@Param('id', ParseUUIDPipe)]: the pipe runs before the body and
    raises a [BadRequestException] unless the id is a UUID; [isUUID]
    is the test the pipe applies (NestJS code, taken as a parameter).
    In the body, the [catch] block lets a [NotFoundException] through
    and turns every other error into an
    [InternalServerErrorException]. *)
Definition findOne (isUUID : string -> bool) (table : list MoodLog.t)
    (id user : string) : Http.Result MoodLog.t :=
  if negb (isUUID id) then
    Http.Throw (Http.BadRequestException "Validation failed (uuid is expected)")
  else
    match findMoodLogById table id user with
    | Http.Ok moodLog => Http.Ok moodLog
    | Http.Throw error =>
        match error with
        | Http.NotFoundException _ => Http.Throw error
        | _ =>
            Http.Throw
              (Http.InternalServerErrorException
                 "An error occurred while fetching the mood log")
        end
    end.

(** [GET stats/:period].  The period is validated before the [try]
    block. *)
Definition getMoodStats (find : Date -> Date -> list MoodLog.t) (now : Date)
    (period : string) : Http.Result Stats.t :=
  match Period_of_string period with
  | None =>
      Http.Throw
        (Http.BadRequestException "Period must be one of: day, week, month")
  | Some period =>
      match getMoodStatsByPeriod find now period with
      | Body stats => Http.Ok stats
      | InternalServerErrorException _ =>
          Http.Throw
            (Http.InternalServerErrorException
               "An error occurred while fetching mood statistics")
      end
  end.

(** [GET summary/:period]. *)
Definition getMoodSummary (find : Date -> Date -> list MoodLog.t) (now : Date)
    (period : string) : Http.Result Summary.t :=
  match Period_of_string period with
  | None =>
      Http.Throw
        (Http.BadRequestException "Period must be one of: day, week, month")
  | Some period => Http.Ok (getMoodSummary find now period)
  end.

End MoodLogController.

(* ===================================================================== *)
(** * Part II: properties *)
(* ===================================================================== *)

(** ** Calendar-day arithmetic *)

Lemma localDay_startOfDay d : localDay (startOfDay d) = localDay d.
Proof.
  unfold startOfDay, localDay, MS_PER_DAY. now rewrite Z.div_mul.
Qed.

Lemma startOfDay_idem d : startOfDay (startOfDay d) = startOfDay d.
Proof. unfold startOfDay at 1. now rewrite localDay_startOfDay. Qed.

Lemma differenceInCalendarDays_gap logDate last :
  differenceInCalendarDays (startOfDay logDate) (startOfDay last) = gap logDate last.
Proof.
  unfold differenceInCalendarDays, gap. now rewrite !localDay_startOfDay.
Qed.

Lemma localDay_addDays d i : localDay (addDays d i) = localDay d + i.
Proof. unfold localDay, addDays, MS_PER_DAY. now rewrite Z.div_add by lia. Qed.

Lemma localDay_endOfDay d : localDay (endOfDay d) = localDay d.
Proof.
  unfold endOfDay, startOfDay, localDay, MS_PER_DAY.
  rewrite Z.add_comm, Z.div_add by lia.
  now rewrite Z.div_small by lia.
Qed.

(** ** The streak tracker *)

(** The branch taken by [streakAfterLog] on an existing record with a
    stored [lastLogDate], as a function of the gap alone. *)
Lemma streakAfterLog_existing uid r last logDate :
  lastLogDate r = Some last ->
  streakAfterLog uid (Some r) logDate =
  let today := startOfDay logDate in
  if gap logDate last =? 0 then set_lastLogDate (Some today) r
  else if gap logDate last =? 1 then
    let r1 := set_isActive true
                (set_lastLogDate (Some today)
                   (set_currentStreak (currentStreak r + 1) r)) in
    if longestStreak r <? currentStreak r + 1 then
      set_longestStreakEndDate (Some today)
        (set_longestStreakStartDate (currentStreakStartDate r)
           (set_longestStreak (currentStreak r + 1) r1))
    else r1
  else if 1 <? gap logDate last then
    set_isActive true
      (set_currentStreakStartDate (Some today)
         (set_lastLogDate (Some today) (set_currentStreak 1 r)))
  else r.
Proof.
  intros Hlast. unfold streakAfterLog. rewrite Hlast. cbn [option_map].
  rewrite differenceInCalendarDays_gap. reflexivity.
Qed.

Lemma streakAfterLog_no_lastLogDate uid r logDate :
  lastLogDate r = None ->
  streakAfterLog uid (Some r) logDate =
  set_currentStreakStartDate (Some (startOfDay logDate))
    (set_isActive true
       (set_lastLogDate (Some (startOfDay logDate)) (set_currentStreak 1 r))).
Proof. intros Hlast. unfold streakAfterLog. now rewrite Hlast. Qed.

Ltac streak_branch Hlast :=
  rewrite (streakAfterLog_existing _ _ _ _ Hlast); cbv zeta.

(** ** The stored table *)

(** [updateUserStreak] returns the record it hands to [save], stores
    what [persist] writes of it under the user, and touches no other
    row. *)
Lemma updateUserStreak_saves tz repo uid logDate :
  let '(repo', streakRecord) := updateUserStreak tz repo uid logDate in
  streakRecord = streakRecordAfterLog tz uid (repo !! uid) logDate /\
  repo' !! uid = Some (persist streakRecord) /\
  (forall other, other <> uid -> repo' !! other = repo !! other).
Proof.
  cbn. split; [done|]. split; [apply lookup_insert_eq|].
  intros other Hne. now apply lookup_insert_ne.
Qed.

(** The update on the values in memory is [streakAfterLog] on the
    record as read, in every zone. *)
Lemma asRead_streakRecordAfterLog tz uid found logDate :
  asRead tz (streakRecordAfterLog tz uid found logDate) =
  streakAfterLog uid (option_map (asRead tz) found) logDate.
Proof.
  destruct found as [r|]; [|reflexivity].
  unfold streakRecordAfterLog, streakAfterLog. cbn [option_map asRead lastLogDate].
  destruct (StreakRecord.lastLogDate r) as [v|]; cbn [option_map]; [|reflexivity].
  cbv zeta.
  destruct (differenceInCalendarDays _ _ =? 0); [reflexivity|].
  destruct (differenceInCalendarDays _ _ =? 1).
  - cbn. now destruct (StreakRecord.longestStreak r <? _).
  - now destruct (1 <? differenceInCalendarDays _ _).
Qed.

(** At or east of UTC a stored day is read back as that day; west of
    UTC it is read back as the day before. *)
Lemma localDay_toDate_east tz v :
  0 <= tz < MS_PER_DAY -> localDay (toDate tz v) = columnDay v.
Proof.
  intros Htz. destruct v as [d|day]; [reflexivity|]. cbn.
  unfold localDay, MS_PER_DAY in *.
  rewrite Z.add_comm, Z.div_add by lia. rewrite Z.div_small by lia. lia.
Qed.

Lemma localDay_toDate_west tz day :
  - MS_PER_DAY <= tz < 0 -> localDay (toDate tz (DateString day)) = day - 1.
Proof.
  intros Htz. cbn. unfold localDay, MS_PER_DAY in *.
  replace (day * 86400000 + tz) with (tz + 86400000 + (day - 1) * 86400000)
    by lia.
  rewrite Z.div_add by lia. rewrite Z.div_small by lia. lia.
Qed.

Lemma localDay_midnight n : localDay (n * MS_PER_DAY) = n.
Proof. unfold localDay, MS_PER_DAY. now rewrite Z.div_mul. Qed.

Lemma midnight_of_today d : localDay (startOfDay d) * MS_PER_DAY = startOfDay d.
Proof. now rewrite localDay_startOfDay. Qed.

Lemma storedDays_persist r : storedDays (persist r) = storedDays r.
Proof.
  unfold storedDays, persist. cbn.
  now destruct (StreakRecord.lastLogDate r),
    (StreakRecord.currentStreakStartDate r),
    (StreakRecord.longestStreakStartDate r),
    (StreakRecord.longestStreakEndDate r).
Qed.

Lemma persist_idem r : persist (persist r) = persist r.
Proof.
  unfold persist. cbn.
  now destruct (StreakRecord.lastLogDate r),
    (StreakRecord.currentStreakStartDate r),
    (StreakRecord.longestStreakStartDate r),
    (StreakRecord.longestStreakEndDate r).
Qed.

(** At or east of UTC the round trip through the table is exact at the
    granularity of days: the days stored after an update are
    [streakAfterLog] of the days stored before it. *)
Lemma storedDays_step tz uid found logDate :
  0 <= tz < MS_PER_DAY ->
  storedDays (persist (streakRecordAfterLog tz uid found logDate)) =
  streakAfterLog uid (option_map storedDays found) logDate.
Proof.
  intros Htz. rewrite storedDays_persist.
  destruct found as [r|].
  { unfold streakRecordAfterLog, streakAfterLog.
    cbn [option_map storedDays lastLogDate].
    destruct (StreakRecord.lastLogDate r) as [v|] eqn:Hv; cbn [option_map].
    - rewrite !differenceInCalendarDays_gap. unfold gap.
      rewrite localDay_toDate_east, localDay_midnight by done. cbv zeta.
      destruct (localDay logDate - columnDay v =? 0).
      { unfold storedDays. cbn. now rewrite Hv, midnight_of_today. }
      destruct (localDay logDate - columnDay v =? 1).
      { cbn. destruct (StreakRecord.longestStreak r <? _);
          unfold storedDays; cbn; now rewrite ?Hv, !midnight_of_today. }
      destruct (1 <? localDay logDate - columnDay v).
      { unfold storedDays. cbn. now rewrite !midnight_of_today. }
      unfold storedDays. cbn. now rewrite Hv.
    - unfold storedDays. cbn. now rewrite !midnight_of_today. }
  unfold storedDays. cbn. now rewrite !midnight_of_today.
Qed.

(** Logging a list of dates at or east of UTC, seen through the stored
    days. *)
Lemma logAll_storedDays tz uid dates :
  0 <= tz < MS_PER_DAY ->
  forall found,
    option_map storedDays (logAll tz uid found dates) =
    fold_left (fun found d => Some (streakAfterLog uid found d)) dates
      (option_map storedDays found).
Proof.
  intros Htz. induction dates as [|d ds IH]; intros found; [reflexivity|].
  cbn [logAll fold_left]. rewrite IH. cbn [option_map].
  now rewrite storedDays_step.
Qed.

(** The counters and [isActive] under one update, whatever the dates. *)
Lemma streakAfterLog_counters uid found logDate :
  match found with
  | Some r => 1 <= currentStreak r <= longestStreak r
  | None => True
  end ->
  1 <= currentStreak (streakAfterLog uid found logDate)
    <= longestStreak (streakAfterLog uid found logDate).
Proof.
  destruct found as [r|]; [|cbn; lia]. intros Hr.
  destruct (lastLogDate r) as [last|] eqn:Hlast.
  - streak_branch Hlast.
    destruct (gap logDate last =? 0); [cbn; lia|].
    destruct (gap logDate last =? 1).
    + destruct (longestStreak r <? currentStreak r + 1) eqn:E;
        [apply Z.ltb_lt in E|apply Z.ltb_ge in E]; cbn; lia.
    + destruct (1 <? gap logDate last); cbn; lia.
  - rewrite (streakAfterLog_no_lastLogDate _ _ _ Hlast). cbn. lia.
Qed.


(** C4. With no streak row for the user, the update returns a record with
    [currentStreak = 1], [longestStreak = 1], [isActive = true] and the
    four dates all equal to the calendar day of the log. *)
Theorem first_log_creates_streak (uid : string) (logDate : Date) :
  let r := streakAfterLog uid None logDate in
  let today := Some (startOfDay logDate) in
  userId r = uid /\
  currentStreak r = 1 /\ longestStreak r = 1 /\ isActive r = true /\
  lastLogDate r = today /\ currentStreakStartDate r = today /\
  longestStreakStartDate r = today /\ longestStreakEndDate r = today.
Proof. cbn. repeat split. Qed.

(** C1 on a server five hours west of UTC: first-ever logs at 09:00 on
    three consecutive days.  Each stored [lastLogDate] is read back as
    the day before, so the second and the third log see a gap of two
    days and take the streak-broken branch: the row ends with
    [currentStreak = 1] and [longestStreak = 1], ending on the first
    day, where the specification has 3, 3 and the third day. *)
Theorem consecutive_days_west_of_utc :
  let tz := -5 * MS_PER_HOUR in
  let day1 := 20759 * MS_PER_DAY + 9 * MS_PER_HOUR in
  let day2 := 20760 * MS_PER_DAY + 9 * MS_PER_HOUR in
  let day3 := 20761 * MS_PER_DAY + 9 * MS_PER_HOUR in
  gap day2 day1 = 1 /\ gap day3 day2 = 1 /\
  exists row,
    logAll tz "user-1" None [day1; day2; day3] = Some row /\
    StreakRecord.currentStreak row = 1 /\
    StreakRecord.longestStreak row = 1 /\
    StreakRecord.lastLogDate row = Some (DateString 20761) /\
    StreakRecord.currentStreakStartDate row = Some (DateString 20761) /\
    StreakRecord.longestStreakEndDate row = Some (DateString 20759).
Proof.
  cbv zeta. split; [reflexivity|]. split; [reflexivity|].
  eexists. split; [reflexivity|]. vm_compute. repeat split.
Qed.

(** On an existing record with a stored [lastLogDate], a log exactly
    one calendar day after the day [lastLogDate] is read as increments
    [currentStreak], stores the log's day in [lastLogDate], sets
    [isActive]; the three longest-streak fields are overwritten exactly
    when the new [currentStreak] exceeds [longestStreak], and are
    untouched otherwise.  On a server at or east of UTC three first-ever
    logs on consecutive days leave a row with [currentStreak = 3],
    [longestStreak = 3] and the third day as [longestStreakEndDate]. *)
Theorem consecutive_day_extends_streak :
  (forall (uid : string) (r : MoodStreaks) (last logDate : Date),
      lastLogDate r = Some last ->
      gap logDate last = 1 ->
      let r' := streakAfterLog uid (Some r) logDate in
      let today := Some (startOfDay logDate) in
      currentStreak r' = currentStreak r + 1 /\
      lastLogDate r' = today /\
      isActive r' = true /\
      currentStreakStartDate r' = currentStreakStartDate r /\
      (currentStreak r' > longestStreak r ->
         longestStreak r' = currentStreak r' /\
         longestStreakStartDate r' = currentStreakStartDate r /\
         longestStreakEndDate r' = today) /\
      (~ currentStreak r' > longestStreak r ->
         longestStreak r' = longestStreak r /\
         longestStreakStartDate r' = longestStreakStartDate r /\
         longestStreakEndDate r' = longestStreakEndDate r)) /\
  (forall (tz : Z) (uid : string) (d1 d2 d3 : Date),
      0 <= tz < MS_PER_DAY ->
      gap d2 d1 = 1 -> gap d3 d2 = 1 ->
      exists row, logAll tz uid None [d1; d2; d3] = Some row /\
        currentStreak (storedDays row) = 3 /\
        longestStreak (storedDays row) = 3 /\
        longestStreakEndDate (storedDays row) = Some (startOfDay d3)).
Proof.
  split.
  - intros uid r last logDate Hlast Hgap. streak_branch Hlast.
    rewrite Hgap. cbn [Z.eqb Pos.eqb].
    destruct (longestStreak r <? currentStreak r + 1) eqn:Hlt; cbn.
    + apply Z.ltb_lt in Hlt. repeat split; intros; lia.
    + apply Z.ltb_ge in Hlt. repeat split; intros; lia.
  - intros tz uid d1 d2 d3 Htz H12 H23. eexists. split; [reflexivity|].
    repeat (rewrite storedDays_step by done; cbn [option_map]).
    assert (E1 : streakAfterLog uid None d1 =
                 mkMoodStreaks uid 1 1 (Some (startOfDay d1)) true
                   (Some (startOfDay d1)) (Some (startOfDay d1))
                   (Some (startOfDay d1))) by reflexivity.
    assert (E2 : streakAfterLog uid (Some (streakAfterLog uid None d1)) d2 =
                 mkMoodStreaks uid 2 2 (Some (startOfDay d2)) true
                   (Some (startOfDay d1)) (Some (startOfDay d1))
                   (Some (startOfDay d2))).
    { rewrite E1.
      erewrite (streakAfterLog_existing uid _ (startOfDay d1) d2) by reflexivity.
      replace (gap d2 (startOfDay d1)) with 1
        by (unfold gap in *; rewrite localDay_startOfDay; lia).
      reflexivity. }
    rewrite E2.
    erewrite (streakAfterLog_existing uid _ (startOfDay d2) d3) by reflexivity.
    replace (gap d3 (startOfDay d2)) with 1
      by (unfold gap in *; rewrite localDay_startOfDay; lia).
    cbn. repeat split.
Qed.

Lemma consecutive_day_extends_streak_witness :
  let r := mkMoodStreaks "u" 2 2 (Some 0) true (Some 0) (Some 0) (Some 0) in
  currentStreak (streakAfterLog "u" (Some r) (MS_PER_DAY + 5)) = 3.
Proof.
  exact (proj1 (proj1 consecutive_day_extends_streak "u"
           (mkMoodStreaks "u" 2 2 (Some 0) true (Some 0) (Some 0) (Some 0))
           0 (MS_PER_DAY + 5) eq_refl eq_refl)).
Defined.

(** C5 on a server five hours west of UTC: logs at 09:00 on days 1, 2
    and 3, then on days 10 and 11.  Every log after the first sees the
    stored [lastLogDate] one day early and takes the streak-broken
    branch, so the row ends with [longestStreak = 1], from and to day 1,
    and [currentStreak = 1], where the specification has a longest
    streak of 3 from day 1 to day 3 and a current streak of 2. *)
Theorem broken_streak_west_of_utc :
  let tz := -5 * MS_PER_HOUR in
  let at9 n := n * MS_PER_DAY + 9 * MS_PER_HOUR in
  exists row,
    logAll tz "user-1" None [at9 1; at9 2; at9 3; at9 10; at9 11] = Some row /\
    StreakRecord.longestStreak row = 1 /\
    StreakRecord.longestStreakStartDate row = Some (DateString 1) /\
    StreakRecord.longestStreakEndDate row = Some (DateString 1) /\
    StreakRecord.currentStreak row = 1 /\
    StreakRecord.currentStreakStartDate row = Some (DateString 11).
Proof.
  cbv zeta. eexists. split; [reflexivity|]. vm_compute. repeat split.
Qed.

(** On an existing record with a stored [lastLogDate], a log more than
    one calendar day after the day [lastLogDate] is read as resets
    [currentStreak] to 1, stores the log's day in [lastLogDate] and
    [currentStreakStartDate], sets [isActive], and leaves the three
    longest-streak fields as they were.  On a server at or east of UTC,
    logs on three consecutive days, then one after a break, then one on
    the next day leave a row with [longestStreak = 3] over its first
    date range, and [currentStreak = 2]. *)
Theorem broken_streak_keeps_longest :
  (forall (uid : string) (r : MoodStreaks) (last logDate : Date),
      lastLogDate r = Some last ->
      gap logDate last > 1 ->
      let r' := streakAfterLog uid (Some r) logDate in
      let today := Some (startOfDay logDate) in
      currentStreak r' = 1 /\
      lastLogDate r' = today /\
      currentStreakStartDate r' = today /\
      isActive r' = true /\
      longestStreak r' = longestStreak r /\
      longestStreakStartDate r' = longestStreakStartDate r /\
      longestStreakEndDate r' = longestStreakEndDate r) /\
  (forall (tz : Z) (uid : string) (d1 d2 d3 d10 d11 : Date),
      0 <= tz < MS_PER_DAY ->
      gap d2 d1 = 1 -> gap d3 d2 = 1 -> gap d10 d3 > 1 -> gap d11 d10 = 1 ->
      exists row, logAll tz uid None [d1; d2; d3; d10; d11] = Some row /\
        longestStreak (storedDays row) = 3 /\
        longestStreakStartDate (storedDays row) = Some (startOfDay d1) /\
        longestStreakEndDate (storedDays row) = Some (startOfDay d3) /\
        currentStreak (storedDays row) = 2).
Proof.
  split.
  - intros uid r last logDate Hlast Hgap. streak_branch Hlast.
    destruct (gap logDate last =? 0) eqn:H0; [apply Z.eqb_eq in H0; lia|].
    destruct (gap logDate last =? 1) eqn:H1; [apply Z.eqb_eq in H1; lia|].
    destruct (1 <? gap logDate last) eqn:H2; [|apply Z.ltb_ge in H2; lia].
    cbn. repeat split.
  - intros tz uid d1 d2 d3 d10 d11 Htz H12 H23 H310 H1011.
    eexists. split; [reflexivity|].
    repeat (rewrite storedDays_step by done; cbn [option_map]).
    assert (E2 : streakAfterLog uid (Some (streakAfterLog uid None d1)) d2 =
                 mkMoodStreaks uid 2 2 (Some (startOfDay d2)) true
                   (Some (startOfDay d1)) (Some (startOfDay d1))
                   (Some (startOfDay d2))).
    { erewrite (streakAfterLog_existing uid _ (startOfDay d1) d2) by reflexivity.
      replace (gap d2 (startOfDay d1)) with 1
        by (unfold gap in *; rewrite localDay_startOfDay; lia).
      reflexivity. }
    rewrite E2.
    erewrite (streakAfterLog_existing uid _ (startOfDay d2) d3) by reflexivity.
    replace (gap d3 (startOfDay d2)) with 1
      by (unfold gap in *; rewrite localDay_startOfDay; lia).
    cbn -[streakAfterLog startOfDay].
    erewrite (streakAfterLog_existing uid _ (startOfDay d3) d10) by reflexivity.
    assert (H310' : gap d10 (startOfDay d3) > 1)
      by (unfold gap in *; rewrite localDay_startOfDay; lia).
    destruct (gap d10 (startOfDay d3) =? 0) eqn:H0; [apply Z.eqb_eq in H0; lia|].
    destruct (gap d10 (startOfDay d3) =? 1) eqn:H1; [apply Z.eqb_eq in H1; lia|].
    destruct (1 <? gap d10 (startOfDay d3)) eqn:H2; [|apply Z.ltb_ge in H2; lia].
    cbn -[streakAfterLog startOfDay].
    erewrite (streakAfterLog_existing uid _ (startOfDay d10) d11) by reflexivity.
    replace (gap d11 (startOfDay d10)) with 1
      by (unfold gap in *; rewrite localDay_startOfDay; lia).
    cbn. repeat split.
Qed.

Lemma broken_streak_keeps_longest_witness :
  let r := mkMoodStreaks "u" 3 3 (Some (2 * MS_PER_DAY)) true (Some 0) (Some 0)
             (Some (2 * MS_PER_DAY)) in
  let r' := streakAfterLog "u" (Some r) (9 * MS_PER_DAY + 7) in
  currentStreak r' = 1 /\ longestStreak r' = 3.
Proof.
  pose proof (proj1 broken_streak_keeps_longest "u"
           (mkMoodStreaks "u" 3 3 (Some (2 * MS_PER_DAY)) true (Some 0) (Some 0)
              (Some (2 * MS_PER_DAY)))
           (2 * MS_PER_DAY) (9 * MS_PER_DAY + 7) eq_refl eq_refl) as H.
  cbv zeta in H. exact (conj (proj1 H) (proj1 (proj2 (proj2 (proj2 (proj2 H)))))).
Defined.



(** C6, as the specification words it, fails: with [lastLogDate] absent
    the update does not touch the longest-streak fields, so a record that
    remembers a longest streak of 4 does not come back equal to the
    first-ever-log record. *)
Lemma absent_lastLogDate_is_not_first_log :
  let r := mkMoodStreaks "u" 2 4 None false (Some 0) (Some 0)
             (Some (3 * MS_PER_DAY)) in
  let r' := streakAfterLog "u" (Some r) (20 * MS_PER_DAY) in
  lastLogDate r = None /\
  longestStreak r' = 4 /\
  longestStreakStartDate r' = Some 0 /\
  longestStreakEndDate r' = Some (3 * MS_PER_DAY) /\
  ~ (longestStreak r' = 1 /\
     longestStreakStartDate r' = Some (startOfDay (20 * MS_PER_DAY)) /\
     longestStreakEndDate r' = Some (startOfDay (20 * MS_PER_DAY))) /\
  r' <> streakAfterLog "u" None (20 * MS_PER_DAY).
Proof.
  cbn. repeat split; try discriminate.
  intros [H _]. discriminate H.
Qed.

(** C6, amended. On an existing record whose [lastLogDate] is absent the
    update sets [currentStreak = 1], [isActive = true] and stores the
    log's calendar day in [lastLogDate] and [currentStreakStartDate]; the
    three longest-streak fields keep their values. *)
Theorem absent_lastLogDate_restarts_current (uid : string) (r : MoodStreaks)
    (logDate : Date) :
  lastLogDate r = None ->
  let r' := streakAfterLog uid (Some r) logDate in
  let today := Some (startOfDay logDate) in
  currentStreak r' = 1 /\ isActive r' = true /\
  lastLogDate r' = today /\ currentStreakStartDate r' = today /\
  longestStreak r' = longestStreak r /\
  longestStreakStartDate r' = longestStreakStartDate r /\
  longestStreakEndDate r' = longestStreakEndDate r /\
  userId r' = userId r.
Proof.
  intros Hlast. rewrite (streakAfterLog_no_lastLogDate _ _ _ Hlast).
  cbn. repeat split.
Qed.

Lemma absent_lastLogDate_restarts_current_witness :
  let r := mkMoodStreaks "u" 0 0 None true None None None in
  let r' := streakAfterLog "u" (Some r) (20 * MS_PER_DAY + 1) in
  currentStreak r' = 1 /\ longestStreak r' = 0.
Proof.
  pose proof (absent_lastLogDate_restarts_current "u"
                (mkMoodStreaks "u" 0 0 None true None None None)
                (20 * MS_PER_DAY + 1) eq_refl) as H.
  cbv zeta in H. exact (conj (proj1 H) (proj1 (proj2 (proj2 (proj2 (proj2 H)))))).
Defined.


Lemma streak_good_preserved uid found logDate :
  match found with Some r => streak_good r | None => True end ->
  streak_good (streakAfterLog uid found logDate).
Proof.
  destruct found as [r|]; [|intros _; cbn; unfold streak_good, streak_invariant;
                            cbn; repeat split; lia].
  intros (Hc & Hl & Hd). unfold day_le in Hd.
  destruct (currentStreakStartDate r) as [s|] eqn:Hs; [|contradiction].
  destruct (lastLogDate r) as [last|] eqn:Hlast; [|contradiction].
  streak_branch Hlast.
  destruct (gap logDate last =? 0) eqn:H0.
  { apply Z.eqb_eq in H0. unfold streak_good, streak_invariant, gap in *.
    cbn. rewrite Hs. cbn. rewrite localDay_startOfDay. repeat split; lia. }
  destruct (gap logDate last =? 1) eqn:H1.
  { apply Z.eqb_eq in H1. unfold streak_good, streak_invariant, gap in *.
    destruct (longestStreak r <? currentStreak r + 1) eqn:Hlt;
      [apply Z.ltb_lt in Hlt | apply Z.ltb_ge in Hlt];
      cbn; rewrite Hs; cbn; rewrite localDay_startOfDay; repeat split; lia. }
  destruct (1 <? gap logDate last) eqn:H2.
  { unfold streak_good, streak_invariant. cbn. repeat split; lia. }
  unfold streak_good, streak_invariant. rewrite Hs, Hlast. cbn. repeat split; lia.
Qed.

(** At or east of UTC the days stored in a reachable row satisfy the
    strengthened invariant. *)
Lemma reachable_good tz row :
  0 <= tz < MS_PER_DAY -> reachable tz row -> streak_good (storedDays row).
Proof.
  intros Htz. induction 1 as [uid logDate | row logDate _ IH].
  - rewrite storedDays_step by done.
    now apply (streak_good_preserved uid None).
  - rewrite storedDays_step by done.
    now apply (streak_good_preserved _ (Some (storedDays row))).
Qed.

(** In every zone the counters of a reachable row are in order and the
    row is active. *)
Lemma reachable_counters tz row :
  reachable tz row ->
  1 <= StreakRecord.currentStreak row <= StreakRecord.longestStreak row.
Proof.
  induction 1 as [uid logDate | row logDate _ IH].
  - cbn. lia.
  - change (1 <= currentStreak (asRead tz (streakRecordAfterLog tz
                  (StreakRecord.userId row) (Some row) logDate))
              <= longestStreak (asRead tz (streakRecordAfterLog tz
                  (StreakRecord.userId row) (Some row) logDate))).
    rewrite asRead_streakRecordAfterLog.
    now apply (streakAfterLog_counters _ (Some (asRead tz row))).
Qed.




(** C2, as the specification words it, fails: the update does not repair
    a record it is handed.  On the entity's column defaults
    ([currentStreak = 0], [longestStreak = 0], no dates) the update
    returns [currentStreak = 1] above [longestStreak = 0]; and a same-day
    log returns a record whose [currentStreak] exceeds [longestStreak]
    as it found it. *)
Lemma update_of_arbitrary_record_breaks_invariant :
  let defaults := mkMoodStreaks "u" 0 0 None true None None None in
  let odd := mkMoodStreaks "u" 5 2 (Some 0) true (Some 0) (Some 0) (Some 0) in
  ~ streak_invariant (streakAfterLog "u" (Some defaults) (3 * MS_PER_DAY)) /\
  ~ streak_invariant (streakAfterLog "u" (Some odd) 0).
Proof.
  split; intros [H _]; vm_compute in H; now apply H.
Qed.

(** West of UTC the date part of the invariant can fail on a reachable
    row: after a first log on day 10 the stored [lastLogDate] is read
    back as day 9, so a log dated day 9 is taken for the same day and
    moves [lastLogDate] to day 9, while [currentStreakStartDate] stays
    at day 10. *)
Example west_of_utc_start_after_last :
  let tz := -5 * MS_PER_HOUR in
  exists row,
    logAll tz "u" None [10 * MS_PER_DAY + 9 * MS_PER_HOUR;
                        9 * MS_PER_DAY + 9 * MS_PER_HOUR] = Some row /\
    reachable tz row /\
    StreakRecord.currentStreakStartDate row = Some (DateString 10) /\
    StreakRecord.lastLogDate row = Some (DateString 9) /\
    ~ streak_invariant (storedDays row).
Proof.
  cbv zeta. eexists. split; [reflexivity|]. split.
  - exact (reach_log (-5 * MS_PER_HOUR) _ (9 * MS_PER_DAY + 9 * MS_PER_HOUR)
             (reach_first (-5 * MS_PER_HOUR) "u"
                (10 * MS_PER_DAY + 9 * MS_PER_HOUR))).
  - split; [reflexivity|]. split; [reflexivity|].
    intros [_ H]. vm_compute in H. now apply H.
Qed.

(** C2, amended. In every row reachable from a first-ever log, whatever
    the log dates, [longestStreak >= currentStreak]; and on a server at
    or east of UTC the stored days also satisfy
    [currentStreakStartDate <= lastLogDate], so there the whole
    predicate holds in every reachable row. *)
Theorem reachable_streak_invariant (tz : Z) (row : StreakRecord.t) :
  reachable tz row ->
  StreakRecord.longestStreak row >= StreakRecord.currentStreak row /\
  (0 <= tz < MS_PER_DAY -> streak_invariant (storedDays row)).
Proof.
  intros Hrow. split.
  - pose proof (reachable_counters tz row Hrow). lia.
  - intros Htz. exact (proj2 (reachable_good tz row Htz Hrow)).
Qed.

Lemma reachable_streak_invariant_witness :
  let tz := 2 * MS_PER_HOUR in
  let first := persist (streakRecordAfterLog tz "u" None (9 * MS_PER_HOUR)) in
  let row :=
    persist (streakRecordAfterLog tz "u" (Some first)
               (5 * MS_PER_DAY + 9 * MS_PER_HOUR)) in
  StreakRecord.longestStreak row >= StreakRecord.currentStreak row /\
  streak_invariant (storedDays row).
Proof.
  cbv zeta.
  destruct (reachable_streak_invariant (2 * MS_PER_HOUR) _
              (reach_log (2 * MS_PER_HOUR) _ (5 * MS_PER_DAY + 9 * MS_PER_HOUR)
                 (reach_first (2 * MS_PER_HOUR) "u" (9 * MS_PER_HOUR))))
    as [Hcount Hdays].
  split; [exact Hcount|]. apply Hdays. unfold MS_PER_HOUR, MS_PER_DAY. lia.
Defined.

(** Every row of a table built by [updateUserStreak] alone is a
    reachable row, stored under its own user. *)
Lemma repo_reachable_rows tz repo :
  repo_reachable tz repo ->
  forall uid row,
    repo !! uid = Some row -> StreakRecord.userId row = uid /\ reachable tz row.
Proof.
  induction 1 as [|repo uid logDate Hrepo IH]; intros uid' row Hrow.
  - now rewrite lookup_empty in Hrow.
  - cbn in Hrow. destruct (decide (uid = uid')) as [->|Hne].
    + rewrite lookup_insert_eq in Hrow. injection Hrow as <-.
      destruct (repo !! uid') as [row0|] eqn:Hrow0.
      * destruct (IH _ _ Hrow0) as [Hu Hreach].
        assert (Hid : StreakRecord.userId
                        (streakRecordAfterLog tz uid' (Some row0) logDate) = uid').
        { unfold streakRecordAfterLog.
          repeat match goal with
                 | |- context [match ?b with _ => _ end] => destruct b
                 end; cbn; auto. }
        split; [exact Hid|]. rewrite <- Hu at 1. now apply reach_log.
      * split; [reflexivity|apply reach_first].
    + rewrite lookup_insert_ne in Hrow by assumption. now apply IH.
Qed.

(** The invariant on the table: every row of a table built by
    [updateUserStreak] alone is stored under its own user with its
    counters in order, and at or east of UTC its stored days satisfy
    the invariant. *)
Lemma repo_reachable_invariant tz repo :
  repo_reachable tz repo ->
  forall uid row,
    repo !! uid = Some row ->
    StreakRecord.userId row = uid /\
    1 <= StreakRecord.currentStreak row <= StreakRecord.longestStreak row /\
    (0 <= tz < MS_PER_DAY -> streak_good (storedDays row)).
Proof.
  intros Hrepo uid row Hrow.
  destruct (repo_reachable_rows tz repo Hrepo uid row Hrow) as [Hu Hreach].
  split; [exact Hu|]. split; [now apply (reachable_counters tz)|].
  intros Htz. now apply (reachable_good tz).
Qed.

(** ** Completions and [forEach] *)

Lemma fold_left_TypeError {A O} (f : O -> A -> Completion O) xs :
  fold_left (fun acc x => bind acc (fun o' => f o' x)) xs TypeError = TypeError.
Proof. induction xs; auto. Qed.

Lemma forEach_cons {A O} (f : O -> A -> Completion O) x xs o :
  forEach f (x :: xs) o = bind (f o x) (fun o' => forEach f xs o').
Proof.
  unfold forEach. cbn. destruct (f o x); cbn; [done|apply fold_left_TypeError].
Qed.

(** A callback that never throws on the objects satisfying [P], and
    keeps [P], turns [forEach] into a plain left fold. *)
Lemma forEach_total {A O} (f : O -> A -> Completion O) (g : O -> A -> O)
    (P : O -> Prop) xs o :
  (forall o x, P o -> f o x = Return (g o x) /\ P (g o x)) ->
  P o -> forEach f xs o = Return (fold_left g xs o).
Proof.
  intros Hf. revert o. induction xs as [|x xs IH]; intros o Ho; [done|].
  rewrite forEach_cons. destruct (Hf o x Ho) as [-> HP]. cbn. now apply IH.
Qed.

(** ** Own properties *)

Section PropertiesFacts.
Context {K : Type} `{EqDecision K} {V : Type}.
Implicit Types (o : list (K * V)) (k : K).

Lemma prop_alter_keys f k o : (prop_alter f k o).*1 = o.*1.
Proof.
  induction o as [|[k' v] o IH]; [done|]. cbn.
  destruct (decide (k = k')); cbn; [done|]. now rewrite IH.
Qed.

Lemma prop_get_None k o : prop_get k o = None <-> k ∉ o.*1.
Proof.
  induction o as [|[k' v] o IH]; cbn.
  - split; [intros _; apply not_elem_of_nil|done].
  - destruct (decide (k = k')) as [->|Hne].
    + split; [done|]. intros Hn. exfalso. apply Hn. left.
    + rewrite IH, not_elem_of_cons. tauto.
Qed.

Lemma prop_get_is_Some k o : k ∈ o.*1 -> is_Some (prop_get k o).
Proof.
  intros Hin. destruct (prop_get k o) eqn:E; [eauto|].
  apply prop_get_None in E. contradiction.
Qed.

Lemma prop_alter_absent f k o : k ∉ o.*1 -> prop_alter f k o = o.
Proof.
  induction o as [|[k' v] o IH]; [done|]. cbn.
  rewrite not_elem_of_cons. intros [Hne Hn].
  destruct (decide (k = k')); [done|]. now rewrite IH.
Qed.

Lemma prop_set_fresh k v o : k ∉ o.*1 -> prop_set k v o = o ++ [(k, v)].
Proof.
  induction o as [|[k' v'] o IH]; [done|]. cbn.
  rewrite not_elem_of_cons. intros [Hne Hn].
  destruct (decide (k = k')); [done|]. now rewrite IH.
Qed.

(** A run of assignments to pairwise distinct fresh keys appends the
    properties in the order of the run. *)
Lemma prop_set_fold {I} (key : I -> K) (val : I -> V) (l : list I) o :
  NoDup (o.*1 ++ (key <$> l)) ->
  fold_left (fun o i => prop_set (key i) (val i) o) l o =
  o ++ ((fun i => (key i, val i)) <$> l).
Proof.
  revert o. induction l as [|i l IH]; intros o Hnd; cbn.
  - now rewrite app_nil_r.
  - cbn in Hnd. rewrite prop_set_fresh.
    + rewrite IH.
      * now rewrite <- app_assoc.
      * rewrite fmap_app. cbn. now rewrite <- app_assoc.
    + apply NoDup_app in Hnd as (_ & Hd & _). intros Hin.
      apply (Hd _ Hin). left.
Qed.

Section Placing.
Context {A : Type} (key : A -> K) (push : A -> V -> V).

(** Pushing every element of [xs] into the property its key selects
    leaves each property holding what it held, followed by the
    elements of [xs] with that key, in the order of [xs]. *)
Lemma prop_alter_fold xs o :
  NoDup o.*1 ->
  fold_left (fun o x => prop_alter (push x) (key x) o) xs o =
  placed key push xs <$> o.
Proof.
  revert o. induction xs as [|x xs IH]; intros o Hnd.
  - cbn. induction o as [|[k v] o IHo]; [done|].
    cbn. f_equal. apply IHo. now apply NoDup_cons in Hnd as [_ ?].
  - cbn [fold_left]. rewrite IH by now rewrite prop_alter_keys.
    clear IH. induction o as [|[k v] o IHo]; [done|].
    cbn in Hnd. apply NoDup_cons in Hnd as [Hk Hnd].
    cbn [prop_alter]. destruct (decide (key x = k)) as [Hx|Hx].
    + cbn [fmap list_fmap]. f_equal.
      * unfold placed. cbn [fst snd].
        now rewrite filter_cons_True by done.
      * apply Forall_fmap_ext, Forall_forall. intros [k' v'] Hin.
        unfold placed. cbn [fst snd].
        rewrite (filter_cons_False _ x); [done|].
        intros Hx'. apply Hk. rewrite <- Hx, Hx'.
        apply (list_elem_of_fmap_2 fst _ _ Hin).
    + cbn [fmap list_fmap]. f_equal; [|now apply IHo].
      unfold placed. cbn [fst snd]. now rewrite filter_cons_False by done.
Qed.
End Placing.
End PropertiesFacts.

(** ** Clock fields *)

Lemma getHours_range d : 0 <= getHours d < 24.
Proof.
  unfold getHours, MS_PER_DAY, MS_PER_HOUR.
  pose proof (Z.mod_pos_bound d 86400000 ltac:(lia)) as Hm.
  split.
  - apply Z.div_pos; lia.
  - apply Z.div_lt_upper_bound; lia.
Qed.

Lemma getDay_range d : 0 <= getDay d < 7.
Proof. unfold getDay. apply Z.mod_pos_bound. lia. Qed.

Lemma elem_of_upto n i : i ∈ upto n <-> 0 <= i < n.
Proof. unfold upto. rewrite elem_of_seqZ. lia. Qed.

Lemma NoDup_upto n : NoDup (upto n).
Proof. apply NoDup_seqZ. Qed.

(** ** Buckets *)

Lemma HourGroup_push_fold l g :
  fold_left (fun g x => HourGroup.push x g) l g =
  HourGroup.mk (HourGroup.hour g) (HourGroup.logs g ++ l)
    (HourGroup.count g + Z.of_nat (length l)).
Proof.
  revert g. induction l as [|x l IH]; intros [h ls c]; cbn.
  - now rewrite app_nil_r, Z.add_0_r.
  - rewrite IH. cbn. rewrite <- app_assoc. f_equal. lia.
Qed.

Lemma DayGroup_push_fold l g :
  fold_left (fun g x => DayGroup.push x g) l g =
  DayGroup.mk (DayGroup.day g) (DayGroup.dayNumber g) (DayGroup.logs g ++ l)
    (DayGroup.count g + Z.of_nat (length l)).
Proof.
  revert g. induction l as [|x l IH]; intros [d n ls c]; cbn.
  - now rewrite app_nil_r, Z.add_0_r.
  - rewrite IH. cbn. rewrite <- app_assoc. f_equal. lia.
Qed.

Lemma DateGroup_push_fold l g :
  fold_left (fun g x => DateGroup.push x g) l g =
  DateGroup.mk (DateGroup.date g) (DateGroup.dateObj g) (DateGroup.logs g ++ l)
    (DateGroup.count g + Z.of_nat (length l)).
Proof.
  revert g. induction l as [|x l IH]; intros [d n ls c]; cbn.
  - now rewrite app_nil_r, Z.add_0_r.
  - rewrite IH. cbn. rewrite <- app_assoc. f_equal. lia.
Qed.

(** The bucket list [groupLogsByHour] returns, written out. *)
Lemma groupLogsByHour_eq (logs : list MoodLog.t) :
  groupLogsByHour logs =
  Return ((fun h =>
             let matching :=
               filter (fun log => getHours (MoodLog.moodDate log) = h) logs in
             HourGroup.mk h matching (Z.of_nat (length matching))) <$> upto 24).
Proof.
  unfold groupLogsByHour.
  set (init := fold_left _ (upto 24) []).
  assert (Hinit : init = (fun i => (i, HourGroup.mk i [] 0)) <$> upto 24)
    by reflexivity.
  assert (Hkeys : init.*1 = upto 24) by reflexivity.
  rewrite (forEach_total _
             (fun o x => prop_alter (HourGroup.push x)
                           (getHours (MoodLog.moodDate x)) o)
             (fun o => o.*1 = upto 24)).
  - cbn [bind]. f_equal.
    rewrite prop_alter_fold by (rewrite Hkeys; apply NoDup_upto).
    unfold Object_values. rewrite Hinit, <- !list_fmap_compose.
    apply list_fmap_ext. intros _ h _. cbn.
    now rewrite HourGroup_push_fold.
  - intros o x Ho.
    destruct (prop_get_is_Some (getHours (MoodLog.moodDate x)) o) as [g ->].
    { rewrite Ho. apply elem_of_upto, getHours_range. }
    split; [done|]. now rewrite prop_alter_keys.
  - exact Hkeys.
Qed.

(** ** [Array.prototype.sort] on input that is already in order *)

Lemma sort_insert_last {A} (cmp : A -> A -> Z) x l :
  Forall (fun y => 0 <= cmp x y) l -> sort_insert cmp x l = l ++ [x].
Proof.
  induction 1 as [|y l Hy _ IH]; [done|]. cbn.
  destruct (cmp x y <? 0) eqn:E; [apply Z.ltb_lt in E; lia|].
  now rewrite IH.
Qed.

Lemma Array_sort_sorted {A} (key : A -> Z) (l : list A) :
  StronglySorted (fun a b => key a <= key b) l ->
  Array_sort (fun a b => key a - key b) l = l.
Proof.
  unfold Array_sort. change l with ([] ++ l) at 1 3.
  generalize (@nil A) as acc. induction l as [|x l IH]; intros acc Hs.
  - cbn. now rewrite app_nil_r.
  - cbn [fold_left]. rewrite sort_insert_last.
    + rewrite (IH (acc ++ [x])) by now rewrite <- app_assoc.
      now rewrite <- app_assoc.
    + apply Forall_forall. intros y Hy.
      pose proof (StronglySorted_app_1_elem_of _ _ _ y x Hs Hy ltac:(left)) as Hyx.
      cbv beta in Hyx. lia.
Qed.

Lemma StronglySorted_upto n : StronglySorted Z.lt (upto n).
Proof.
  unfold upto, seqZ. generalize (Z.to_nat n) as k. generalize 0%nat as a.
  intros a k. revert a. induction k as [|k IH]; intros a; cbn.
  - constructor.
  - constructor; [apply IH|].
    apply Forall_fmap, Forall_forall. intros i Hi.
    apply elem_of_seq in Hi. cbn. lia.
Qed.

(** ** [groupLogsByDay] *)

Lemma dayGroups_init (s : Z) :
  0 <= s < 7 ->
  fold_left (fun o i =>
      let day := (s + i) mod 7 in
      index_set day
        (DayGroup.mk (weekdayName day) day [] 0) o)
    (upto 7) [] =
  (fun d => (d, DayGroup.mk (weekdayName d) d [] 0))
    <$> upto 7.
Proof.
  intros Hs.
  assert (s = 0 \/ s = 1 \/ s = 2 \/ s = 3 \/ s = 4 \/ s = 5 \/ s = 6)
    as [->|[->|[->|[->|[->|[->| ->]]]]]] by lia; reflexivity.
Qed.

(** The bucket list [groupLogsByDay] returns, written out: it does not
    depend on [startDate]. *)
Lemma groupLogsByDay_eq (logs : list MoodLog.t) (startDate : Date) :
  groupLogsByDay logs startDate =
  Return ((fun d =>
             let matching :=
               filter (fun log => getDay (MoodLog.moodDate log) = d) logs in
             DayGroup.mk (weekdayName d) d matching
               (Z.of_nat (length matching))) <$> upto 7).
Proof.
  unfold groupLogsByDay.
  pose proof (dayGroups_init (getDay startDate) (getDay_range startDate)) as Hi.
  cbv zeta in Hi |- *. rewrite Hi. clear Hi.
  set (init := _ <$> upto 7) at 1.
  assert (Hkeys : init.*1 = upto 7) by reflexivity.
  rewrite (forEach_total _
             (fun o x => prop_alter (DayGroup.push x)
                           (getDay (MoodLog.moodDate x)) o)
             (fun o => o.*1 = upto 7)).
  - cbn [bind]. f_equal.
    rewrite prop_alter_fold by (rewrite Hkeys; apply NoDup_upto).
    unfold Object_values, init. rewrite <- !list_fmap_compose.
    rewrite Array_sort_sorted.
    + apply list_fmap_ext. intros _ d _. cbn.
      now rewrite DayGroup_push_fold.
    + eapply StronglySorted_fmap; [|apply StronglySorted_upto].
      intros x y Hxy. cbn. rewrite !DayGroup_push_fold. cbn. lia.
  - intros o x Ho.
    destruct (prop_get_is_Some (getDay (MoodLog.moodDate x)) o) as [g ->].
    { rewrite Ho. apply elem_of_upto, getDay_range. }
    split; [done|]. now rewrite prop_alter_keys.
  - exact Hkeys.
Qed.

(** The week window the service computes ([weekStartsOn: 1]) starts on
    a Monday, whatever the clock reads. *)
Lemma week_window_starts_on_monday (now : Date) :
  getDay (periodRange PeriodWeek now).1 = 1.
Proof.
  cbn [periodRange fst]. unfold startOfWeek, getDay.
  rewrite localDay_startOfDay, localDay_addDays.
  pose proof (Z.div_mod (localDay now + 4) 7 ltac:(lia)) as Hdm.
  pose proof (Z.mod_pos_bound (localDay now + 4) 7 ltac:(lia)) as Hb.
  set (day := (localDay now + 4) mod 7) in *.
  set (q := (localDay now + 4) / 7) in *.
  destruct (day <? 1) eqn:E.
  - replace (localDay now + - (7 + day - 1) + 4) with (1 + (q - 1) * 7) by lia.
    now rewrite Z.mod_add by lia.
  - replace (localDay now + - (0 + day - 1) + 4) with (1 + q * 7) by lia.
    now rewrite Z.mod_add by lia.
Qed.

(** C3, as the specification words it, fails on the order: for the week
    window that starts on Monday 2026-11-02 the first bucket returned is
    Sunday's and Monday's comes second, whereas the sequence that starts
    at the window's weekday and wraps around is Monday, ..., Saturday,
    Sunday. *)
Lemma week_buckets_do_not_start_at_window_day :
  let now := 20761 * MS_PER_DAY + 36000000 in
  let startDate := startOfWeek now 1 in
  format startDate = "2026-11-02" /\
  getDay startDate = 1 /\
  exists buckets,
    groupLogsByDay [] startDate = Return buckets /\
    DayGroup.day <$> buckets =
      ["Sunday"; "Monday"; "Tuesday"; "Wednesday"; "Thursday"; "Friday";
       "Saturday"] /\
    DayGroup.dayNumber <$> buckets = [0; 1; 2; 3; 4; 5; 6] /\
    (fun i => (getDay startDate + i) mod 7) <$> upto 7 = [1; 2; 3; 4; 5; 6; 0] /\
    DayGroup.dayNumber <$> buckets <>
      (fun i => (getDay startDate + i) mod 7) <$> upto 7.
Proof.
  cbv zeta. split; [now vm_compute|]. split; [reflexivity|].
  eexists. split; [reflexivity|].
  split; [reflexivity|]. split; [reflexivity|]. split; [reflexivity|].
  discriminate.
Qed.

(** C3, amended. For every log list and every window start, week
    bucketing returns exactly 7 buckets, one per weekday name, each
    present even when empty and holding exactly the logs whose
    [moodDate] falls on that weekday (whatever their calendar date), in
    input order, with [count] their number; the buckets come in ascending
    [dayNumber] order, Sunday (0) through Saturday (6), whatever the
    weekday of [window.startDate]. *)
Theorem week_buckets_by_weekday (logs : list MoodLog.t) (startDate : Date) :
  exists buckets,
    groupLogsByDay logs startDate = Return buckets /\
    length buckets = 7%nat /\
    DayGroup.dayNumber <$> buckets = [0; 1; 2; 3; 4; 5; 6] /\
    DayGroup.day <$> buckets =
      ["Sunday"; "Monday"; "Tuesday"; "Wednesday"; "Thursday"; "Friday";
       "Saturday"] /\
    (forall g, g ∈ buckets ->
       DayGroup.logs g =
         filter (fun log => getDay (MoodLog.moodDate log) = DayGroup.dayNumber g)
           logs /\
       DayGroup.count g = Z.of_nat (length (DayGroup.logs g))) /\
    (forall log, log ∈ logs ->
       exists g, g ∈ buckets /\
         DayGroup.dayNumber g = getDay (MoodLog.moodDate log) /\
         log ∈ DayGroup.logs g).
Proof.
  eexists. split; [apply groupLogsByDay_eq|].
  split; [reflexivity|]. split; [reflexivity|]. split; [reflexivity|]. split.
  - intros g Hg. apply list_elem_of_fmap in Hg as (d & -> & _). now cbn.
  - intros log Hlog.
    eexists. split; [|split].
    + apply list_elem_of_fmap_2, elem_of_upto, (getDay_range (MoodLog.moodDate log)).
    + reflexivity.
    + cbn. now apply list_elem_of_filter.
Qed.

(** ** Strings *)

Lemma string_app_nil (s : string) : EmptyString +:+ s = s.
Proof. reflexivity. Qed.

Lemma string_app_cons (c : ascii) (a s : string) :
  String c a +:+ s = String c (a +:+ s).
Proof. reflexivity. Qed.

Lemma string_length_app (a b : string) :
  String.length (a +:+ b) = (String.length a + String.length b)%nat.
Proof.
  induction a as [|c a IH]; [done|].
  rewrite string_app_cons. cbn [String.length]. now rewrite IH.
Qed.

(** Two concatenations with tails of the same length agree piecewise. *)
Lemma string_app_inj_tail (a b s t : string) :
  String.length s = String.length t ->
  a +:+ s = b +:+ t -> a = b /\ s = t.
Proof.
  revert b. induction a as [|c a IH]; intros [|c' b] Hlen Heq;
    rewrite ?string_app_nil, ?string_app_cons in Heq.
  - done.
  - subst s. cbn [String.length] in Hlen. rewrite string_length_app in Hlen. lia.
  - subst t. cbn [String.length] in Hlen. rewrite string_length_app in Hlen. lia.
  - injection Heq as -> Heq. destruct (IH b Hlen Heq) as [-> ->]. done.
Qed.

Lemma has_char_app c a b :
  has_char c (a +:+ String c b) = true.
Proof.
  induction a as [|c' a IH];
    rewrite ?string_app_nil, ?string_app_cons; cbn [has_char].
  - now destruct (decide (c = c)).
  - now destruct (decide (c = c')).
Qed.

Lemma pretty_N_go_length x s :
  (String.length s <= String.length (pretty_N_go x s))%nat.
Proof.
  revert s. induction (N.lt_wf_0 x) as [x _ IH]; intros s.
  destruct (decide (x = 0)%N) as [->|Hx]; [now rewrite pretty_N_go_0|].
  rewrite pretty_N_go_step by lia.
  etransitivity; [|apply IH, N.div_lt; lia]. cbn. lia.
Qed.

Lemma pretty_length_4 (y : Z) : 1000 <= y -> (4 <= String.length (pretty y))%nat.
Proof.
  intros Hy. destruct y as [|p|p]; try lia.
  change (pretty (Z.pos p)) with (pretty (N.pos p)).
  unfold pretty, pretty_N. destruct (decide (N.pos p = 0)%N) as [|_]; [done|].
  assert (H1 : (1000 <= N.pos p)%N) by lia.
  assert (H2 : (100 <= N.pos p / 10)%N)
    by (apply N.div_le_lower_bound; lia).
  assert (H3 : (10 <= N.pos p / 10 / 10)%N)
    by (apply N.div_le_lower_bound; lia).
  assert (H4 : (1 <= N.pos p / 10 / 10 / 10)%N)
    by (apply N.div_le_lower_bound; lia).
  rewrite 4!pretty_N_go_step by lia.
  etransitivity; [|apply pretty_N_go_length]. cbn. lia.
Qed.

Lemma padStart_long s n c : (n <= String.length s)%nat -> padStart s n c = s.
Proof.
  intros Hn. unfold padStart.
  now replace (n - String.length s)%nat with 0%nat by lia.
Qed.

Lemma addLeadingZeros_year (y : Z) : 1000 <= y -> addLeadingZeros y 4 = pretty y.
Proof.
  intros Hy. unfold addLeadingZeros.
  destruct (y <? 0) eqn:E; [apply Z.ltb_lt in E; lia|].
  rewrite Z.abs_eq by lia. rewrite string_app_nil.
  now apply padStart_long, pretty_length_4.
Qed.

Lemma addLeadingZeros_twoDigits (n : Z) :
  0 <= n < 100 -> addLeadingZeros n 2 = twoDigits n.
Proof.
  intros Hn.
  assert (Hall : Forall (fun n => addLeadingZeros n 2 = twoDigits n) (upto 100))
    by (apply (bool_decide_unpack _); vm_compute; exact I).
  rewrite Forall_forall in Hall. now apply Hall, elem_of_upto.
Qed.

Lemma twoDigits_inj (n1 n2 : Z) :
  0 <= n1 < 100 -> 0 <= n2 < 100 -> twoDigits n1 = twoDigits n2 -> n1 = n2.
Proof.
  intros H1 H2 Heq. unfold twoDigits in Heq. injection Heq as Ha Hb.
  assert (0 <= n1 / 10 < 10 /\ 0 <= n2 / 10 < 10) as [Hq1 Hq2].
  { split; (split; [apply Z.div_pos; lia|apply Z.div_lt_upper_bound; lia]). }
  pose proof (Z.mod_pos_bound n1 10 ltac:(lia)).
  pose proof (Z.mod_pos_bound n2 10 ltac:(lia)).
  apply pretty_N_char_inj in Ha; [|lia..].
  apply pretty_N_char_inj in Hb; [|lia..].
  rewrite (Z.div_mod n1 10), (Z.div_mod n2 10) by lia. lia.
Qed.

(** ** The calendar *)

Lemma daysInMonth_range y m : 28 <= daysInMonth y m <= 31.
Proof.
  unfold daysInMonth.
  repeat match goal with
         | |- context [if ?b then _ else _] => destruct b
         end; lia.
Qed.

Lemma next_day_valid c : civil_valid c -> civil_valid (next_day c).
Proof.
  destruct c as [[y m] d]. unfold civil_valid, next_day. intros [Hm Hd].
  destruct (d <? daysInMonth y m) eqn:E1.
  - apply Z.ltb_lt in E1. lia.
  - destruct (m <? 12) eqn:E2.
    + apply Z.ltb_lt in E2. pose proof (daysInMonth_range y (m + 1)). lia.
    + pose proof (daysInMonth_range (y + 1) 1). lia.
Qed.

Lemma next_day_lt c : civil_lt c (next_day c).
Proof.
  destruct c as [[y m] d]. unfold civil_lt, next_day.
  destruct (d <? daysInMonth y m); [lia|].
  destruct (m <? 12) eqn:E2; [apply Z.ltb_lt in E2|]; lia.
Qed.

Lemma civil_lt_trans a b c : civil_lt a b -> civil_lt b c -> civil_lt a c.
Proof.
  destruct a as [[? ?] ?], b as [[? ?] ?], c as [[? ?] ?].
  unfold civil_lt. lia.
Qed.

Lemma civil_lt_irrefl a : ~ civil_lt a a.
Proof. destruct a as [[? ?] ?]. unfold civil_lt. lia. Qed.

Lemma civil_succ n : 0 <= n -> civil (n + 1) = next_day (civil n).
Proof.
  intros Hn. unfold civil.
  destruct (0 <=? n) eqn:E1; [|apply Z.leb_gt in E1; lia].
  destruct (0 <=? n + 1) eqn:E2; [|apply Z.leb_gt in E2; lia].
  replace (Z.to_nat (n + 1)) with (S (Z.to_nat n)) by lia.
  reflexivity.
Qed.

(** From the epoch on, [civil] yields dates in range, in year 1970 or
    later. *)
Lemma civil_epoch_onwards n :
  0 <= n -> civil_valid (civil n) /\ 1970 <= (civil n).1.1.
Proof.
  revert n. apply natlike_ind.
  - vm_compute. repeat split; discriminate.
  - intros n Hn [Hv Hy]. change (Z.succ n) with (n + 1).
    rewrite civil_succ by done. split; [now apply next_day_valid|].
    pose proof (next_day_lt (civil n)) as Hlt.
    destruct (civil n) as [[y m] d], (next_day (y, m, d)) as [[y' m'] d'].
    cbn in *. lia.
Qed.

Lemma civil_lt_add n k : 0 <= n -> 0 < k -> civil_lt (civil n) (civil (n + k)).
Proof.
  intros Hn Hk. replace k with (Z.succ (k - 1)) by lia.
  assert (Hk' : 0 <= k - 1) by lia. revert Hk'. generalize (k - 1).
  apply natlike_ind.
  - change (Z.succ 0) with 1. rewrite civil_succ by done. apply next_day_lt.
  - intros j Hj IH. replace (n + Z.succ (Z.succ j)) with (n + Z.succ j + 1) by lia.
    rewrite civil_succ by lia.
    eapply civil_lt_trans; [exact IH|apply next_day_lt].
Qed.

Lemma civil_inj n1 n2 : 0 <= n1 -> 0 <= n2 -> civil n1 = civil n2 -> n1 = n2.
Proof.
  intros H1 H2 Heq.
  destruct (Z.lt_trichotomy n1 n2) as [Hlt|[->|Hlt]]; [|done|]; exfalso.
  - pose proof (civil_lt_add n1 (n2 - n1) H1 ltac:(lia)) as H.
    replace (n1 + (n2 - n1)) with n2 in H by lia. rewrite Heq in H.
    exact (civil_lt_irrefl _ H).
  - pose proof (civil_lt_add n2 (n1 - n2) H2 ltac:(lia)) as H.
    replace (n2 + (n1 - n2)) with n1 in H by lia. rewrite Heq in H.
    exact (civil_lt_irrefl _ H).
Qed.

(** Stepping back undoes stepping forward, and conversely, on dates in
    range: [civil] before the epoch continues the same calendar. *)
Lemma prev_next_day c : civil_valid c -> prev_day (next_day c) = c.
Proof.
  destruct c as [[y m] d]. unfold civil_valid, next_day. intros [Hm Hd].
  destruct (d <? daysInMonth y m) eqn:E1.
  - cbn. destruct (1 <? d + 1) eqn:E; [|apply Z.ltb_ge in E; lia].
    do 2 f_equal. lia.
  - apply Z.ltb_ge in E1. destruct (m <? 12) eqn:E2.
    + cbn. destruct (1 <? m + 1) eqn:E; [|apply Z.ltb_ge in E; lia].
      replace (m + 1 - 1) with m by lia. f_equal. lia.
    + apply Z.ltb_ge in E2. assert (m = 12) as -> by lia.
      cbn. replace (y + 1 - 1) with y by lia. f_equal.
      change (daysInMonth y 12) with 31 in *. lia.
Qed.

Lemma next_prev_day c : civil_valid c -> next_day (prev_day c) = c.
Proof.
  destruct c as [[y m] d]. unfold civil_valid, prev_day. intros [Hm Hd].
  destruct (1 <? d) eqn:E1.
  - apply Z.ltb_lt in E1. cbn.
    destruct (d - 1 <? daysInMonth y m) eqn:E; [|apply Z.ltb_ge in E; lia].
    do 2 f_equal. lia.
  - apply Z.ltb_ge in E1. assert (d = 1) as -> by lia.
    destruct (1 <? m) eqn:E2.
    + apply Z.ltb_lt in E2. cbn. rewrite Z.ltb_irrefl.
      destruct (m - 1 <? 12) eqn:E; [|apply Z.ltb_ge in E; lia].
      do 2 f_equal. lia.
    + apply Z.ltb_ge in E2. assert (m = 1) as -> by lia.
      cbn. replace (y - 1 + 1) with y by lia. reflexivity.
Qed.

Example civil_today : civil 20759 = (2026, 11, 2).
Proof. now vm_compute. Qed.

Example civil_before_epoch : civil (-1) = (1969, 12, 31).
Proof. reflexivity. Qed.

(** ** [format] *)

(** From the epoch on, the rendering is the plain decimal year followed
    by two two-digit fields. *)
Lemma formatDay_epoch_onwards n :
  0 <= n ->
  formatDay n =
  pretty (civil n).1.1 +:+ "-" +:+ twoDigits (civil n).1.2 +:+ "-" +:+
  twoDigits (civil n).2.
Proof.
  intros Hn. destruct (civil_epoch_onwards n Hn) as [Hv Hy].
  unfold formatDay. destruct (civil n) as [[y m] d]. cbn in Hv, Hy |- *.
  destruct Hv as [Hm Hd]. pose proof (daysInMonth_range y m).
  destruct (0 <? y) eqn:E; [|apply Z.ltb_ge in E; lia].
  rewrite addLeadingZeros_year by lia.
  now rewrite !addLeadingZeros_twoDigits by lia.
Qed.

Lemma formatDay_inj n1 n2 :
  0 <= n1 -> 0 <= n2 -> formatDay n1 = formatDay n2 -> n1 = n2.
Proof.
  intros H1 H2 Heq. apply civil_inj; [done..|].
  rewrite !formatDay_epoch_onwards in Heq by done.
  destruct (civil_epoch_onwards n1 H1) as [Hv1 _].
  destruct (civil_epoch_onwards n2 H2) as [Hv2 _].
  destruct (civil n1) as [[y1 m1] d1], (civil n2) as [[y2 m2] d2].
  cbn in *. destruct Hv1 as [Hm1 Hd1], Hv2 as [Hm2 Hd2].
  pose proof (daysInMonth_range y1 m1). pose proof (daysInMonth_range y2 m2).
  apply string_app_inj_tail in Heq as [Hy Hrest]; [|reflexivity].
  apply (inj pretty) in Hy.
  assert (twoDigits m1 = twoDigits m2 /\ twoDigits d1 = twoDigits d2) as [Hm Hd].
  { unfold twoDigits in *.
    rewrite !string_app_cons, !string_app_nil in Hrest.
    injection Hrest as -> -> -> ->. done. }
  apply twoDigits_inj in Hm; [|lia..].
  apply twoDigits_inj in Hd; [|lia..].
  congruence.
Qed.

(** A rendered date contains a dash, which no property name of
    [Object.prototype] does. *)
Lemma format_not_inherited d : format d ∉ objectPrototypeKeys.
Proof.
  intros Hin.
  assert (Hdash : has_char "-" (format d) = true).
  { unfold format, formatDay. destruct (civil (localDay d)) as [[y m] dd].
    apply has_char_app. }
  assert (Hkeys : Forall (fun k => has_char "-" k = false) objectPrototypeKeys)
    by (repeat constructor).
  rewrite Forall_forall in Hkeys. rewrite (Hkeys _ Hin) in Hdash. discriminate.
Qed.

(** Windows that start at the epoch or later have pairwise distinct
    date keys. *)
Lemma window_keys_NoDup (startDate : Date) (n : Z) :
  0 <= localDay startDate ->
  NoDup ((fun i => format (addDays startDate i)) <$> upto n).
Proof.
  intros Hs. apply NoDup_fmap_2_strong; [|apply NoDup_upto].
  intros i j Hi Hj Heq. apply elem_of_upto in Hi, Hj.
  unfold format in Heq. rewrite !localDay_addDays in Heq.
  apply formatDay_inj in Heq; lia.
Qed.

(** ** [groupLogsByDate] *)

(** The bucket list [groupLogsByDate] returns, written out, for a window
    whose dates render to pairwise distinct keys. *)
Lemma groupLogsByDate_eq (logs : list MoodLog.t) (startDate endDate : Date) :
  NoDup ((fun i => format (addDays startDate i)) <$>
         upto (differenceInCalendarDays endDate startDate + 1)) ->
  groupLogsByDate logs startDate endDate =
  Return ((fun i =>
             let date := addDays startDate i in
             let matching :=
               filter (fun log => format (MoodLog.moodDate log) = format date)
                 logs in
             DateGroup.mk (format date) date matching
               (Z.of_nat (length matching)))
          <$> upto (differenceInCalendarDays endDate startDate + 1)).
Proof.
  intros Hnd. unfold groupLogsByDate. cbv zeta.
  set (n := differenceInCalendarDays endDate startDate + 1) in *.
  rewrite (prop_set_fold (fun i => format (addDays startDate i))
             (fun i => DateGroup.mk (format (addDays startDate i))
                         (addDays startDate i) [] 0))
    by exact Hnd.
  rewrite app_nil_l. set (init := _ <$> upto n).
  assert (Hkeys : init.*1 = (fun i => format (addDays startDate i)) <$> upto n).
  { unfold init. rewrite <- list_fmap_compose. now apply list_fmap_ext. }
  rewrite (forEach_total _
             (fun o x => prop_alter (DateGroup.push x)
                           (format (MoodLog.moodDate x)) o)
             (fun _ => True)); [|intros o x _; split; [|done]|done].
  - cbn [bind]. f_equal.
    rewrite prop_alter_fold by now rewrite Hkeys.
    unfold Object_values, init. rewrite <- !list_fmap_compose.
    rewrite Array_sort_sorted.
    + apply list_fmap_ext. intros _ i _. cbn.
      now rewrite DateGroup_push_fold.
    + eapply StronglySorted_fmap; [|apply StronglySorted_upto].
      intros x y Hxy. cbn. rewrite !DateGroup_push_fold. cbn.
      unfold addDays, MS_PER_DAY. lia.
  - destruct (prop_get (format (MoodLog.moodDate x)) o) as [g|] eqn:Hget; cbn.
    + done.
    + rewrite bool_decide_eq_false_2 by apply format_not_inherited.
      f_equal. symmetry. now apply prop_alter_absent, prop_get_None.
Qed.

Lemma filter_none {A} (P : A -> Prop) `{forall x, Decision (P x)} (l : list A) :
  (forall x, x ∈ l -> ~ P x) -> filter P l = [].
Proof.
  induction l as [|x l IH]; intros Hall; [done|].
  rewrite filter_cons_False by (apply Hall; left).
  apply IH. intros y Hy. apply Hall. now right.
Qed.

(** ** [getMoodSummary] *)

Lemma upto_length n : Z.of_nat (length (upto n)) = Z.max 0 n.
Proof. unfold upto. rewrite length_seqZ. lia. Qed.

(** What the counting loop leaves under each name: nothing under a name
    inherited from [Object.prototype] or carried by no log; otherwise the
    number of logs carrying it, with the emoji and colour of the first. *)
Lemma countMood_fold_lookup (logs : list MoodLog.t) (name : string) :
  fold_left countMood logs ∅ !! name =
  if decide (name ∈ objectPrototypeKeys) then None
  else (fun log =>
          MoodCount.mk (countOf name logs)
            (Mood.emoji (UserMoods.mood (MoodLog.userMood log)))
            (Mood.colour (UserMoods.mood (MoodLog.userMood log))) 0)
       <$> firstOf name logs.
Proof.
  revert name. induction logs as [|x logs IH] using rev_ind; intros name.
  - cbn [fold_left]. rewrite lookup_empty. now destruct (decide _).
  - rewrite fold_left_app. cbn [fold_left].
    set (m := fold_left countMood logs ∅) in *.
    unfold countOf, firstOf in *. rewrite filter_app.
    unfold countMood. cbv zeta. fold (moodNameOf x).
    pose proof (IH (moodNameOf x)) as Hx.
    destruct (decide (moodNameOf x ∈ objectPrototypeKeys)) as [Hp|Hp].
    + (* an inherited name: the table is left as it is *)
      rewrite Hx. unfold js_lookup. rewrite bool_decide_eq_true_2 by done.
      rewrite Hx, IH.
      destruct (decide (name ∈ objectPrototypeKeys)) as [|Hn]; [done|].
      rewrite (filter_cons_False _ x) by (intros Heq; congruence).
      now rewrite filter_nil, app_nil_r.
    + destruct (filter (fun log => moodNameOf log = moodNameOf x) logs)
        as [|l0 ls] eqn:Hf; cbn [head fmap option_fmap option_map] in Hx.
      * (* first log with this name: the entry is created, then counted *)
        rewrite Hx. unfold js_lookup. rewrite bool_decide_eq_false_2 by done.
        rewrite lookup_insert_eq.
        destruct (decide (name = moodNameOf x)) as [->|Hne].
        -- rewrite lookup_insert_eq, Hf. destruct (decide _); [done|].
           rewrite filter_cons_True by done. reflexivity.
        -- rewrite !lookup_insert_ne by done. rewrite IH.
           destruct (decide _); [done|].
           rewrite (filter_cons_False _ x) by (intros Heq; congruence).
           now rewrite filter_nil, app_nil_r.
      * (* a further log with this name: the entry is counted up *)
        rewrite Hx. cbn [js_lookup]. rewrite Hx.
        destruct (decide (name = moodNameOf x)) as [->|Hne].
        -- rewrite lookup_insert_eq, Hf. destruct (decide _); [done|].
           rewrite filter_cons_True by done. cbn.
           unfold MoodCount.set_count. cbn. f_equal. f_equal.
           rewrite length_app. cbn. lia.
        -- rewrite !lookup_insert_ne by done. rewrite IH.
           destruct (decide _); [done|].
           rewrite (filter_cons_False _ x) by (intros Heq; congruence).
           now rewrite filter_nil, app_nil_r.
Qed.

Lemma firstOf_Some (name : string) (logs : list MoodLog.t) :
  (exists log, log ∈ logs /\ moodNameOf log = name) ->
  exists log, firstOf name logs = Some log /\ log ∈ logs /\ moodNameOf log = name.
Proof.
  intros (log & Hin & Hname). unfold firstOf.
  destruct (filter _ logs) as [|l0 ls] eqn:Hf.
  - exfalso. eapply (filter_nil_not_elem_of _ logs log Hf); eauto.
  - exists l0. split; [done|].
    assert (Hl0 : l0 ∈ filter (fun log => moodNameOf log = name) logs)
      by (rewrite Hf; left).
    apply list_elem_of_filter in Hl0 as [? ?]. done.
Qed.

(** The month window computed from the clock spans the days of the
    clock's month. *)
Lemma month_window_days (now : Date) :
  differenceInCalendarDays (endOfMonth now) (startOfMonth now) + 1 =
  daysInMonth (getFullYear now) (getMonth now + 1).
Proof.
  unfold differenceInCalendarDays, endOfMonth, startOfMonth.
  rewrite !localDay_startOfDay, localDay_endOfDay, !localDay_addDays. lia.
Qed.

(** The summary of a log list, name by name.  Names inherited from
    [Object.prototype] never get an entry; every other name carried by a
    log gets its count and the rounded percentage. *)
Lemma getMoodSummary_entries (find : Date -> Date -> list MoodLog.t)
    (now : Date) (period : Period) :
  let logs := find (periodRange period now).1 (periodRange period now).2 in
  let summary := getMoodSummary find now period in
  Summary.totalLogs summary = Z.of_nat (length logs) /\
  (forall name,
      name ∉ objectPrototypeKeys ->
      (exists log, log ∈ logs /\ moodNameOf log = name) ->
      exists entry,
        Summary.moodCounts summary !! name = Some entry /\
        MoodCount.count entry = countOf name logs /\
        MoodCount.percentage entry =
          Math_round (Number (countOf name logs) /
                      Number (Z.of_nat (length logs)) * 100)%float) /\
  (forall name,
      name ∈ objectPrototypeKeys -> Summary.moodCounts summary !! name = None) /\
  (forall name,
      (forall log, log ∈ logs -> moodNameOf log <> name) ->
      Summary.moodCounts summary !! name = None).
Proof.
  unfold getMoodSummary. destruct (periodRange period now) as [s e].
  cbn [fst snd]. cbv zeta. cbn [Summary.totalLogs Summary.moodCounts].
  split; [done|]. split; [|split].
  - intros name Hn Hex. rewrite lookup_fmap, countMood_fold_lookup.
    destruct (decide _) as [|_]; [done|].
    destruct (firstOf_Some name _ Hex) as (l0 & -> & Hin & _).
    eexists. split; [reflexivity|]. cbn. split; [done|].
    unfold percentageOf.
    destruct (0 <? Z.of_nat (length (find s e))) eqn:E; [done|].
    apply Z.ltb_ge in E. destruct (find s e); [|cbn in E; lia].
    now apply elem_of_nil in Hin.
  - intros name Hn. rewrite lookup_fmap, countMood_fold_lookup.
    now destruct (decide _).
  - intros name Hnone. rewrite lookup_fmap, countMood_fold_lookup.
    destruct (decide _); [done|]. unfold firstOf.
    now rewrite (filter_none _ _ (fun log Hlog => Hnone log Hlog)).
Qed.

(** The summary of an empty log list: no entry, and the category axis of
    the period all the same. *)
Lemma getMoodSummary_empty (find : Date -> Date -> list MoodLog.t)
    (now : Date) (period : Period) :
  find (periodRange period now).1 (periodRange period now).2 = [] ->
  let summary := getMoodSummary find now period in
  Summary.totalLogs summary = 0 /\
  Summary.moodCounts summary = ∅ /\
  Summary.categories summary =
    match period with
    | PeriodDay => CatNumber <$> upto 24
    | PeriodWeek => CatString <$> daysOfWeek
    | PeriodMonth =>
        (fun i => CatString (format (addDays (startOfMonth now) i))) <$>
        upto (daysInMonth (getFullYear now) (getMonth now + 1))
    end /\
  Summary.categories summary <> [].
Proof.
  intros Hempty. unfold getMoodSummary.
  destruct (periodRange period now) as [s e] eqn:Hrange. cbn [fst snd] in Hempty.
  cbv zeta. rewrite Hempty. cbn [Summary.totalLogs Summary.moodCounts
                                  Summary.categories fold_left length].
  split; [done|]. split; [apply fmap_empty|].
  destruct period; cbn in Hrange; injection Hrange as <- <-;
    cbn [getCategoriesForPeriod].
  - split; [done|]. discriminate.
  - split; [done|]. discriminate.
  - rewrite month_window_days. split; [done|].
    pose proof (daysInMonth_range (getFullYear now) (getMonth now + 1)) as Hd.
    intros Hnil. apply (f_equal length) in Hnil.
    rewrite length_fmap in Hnil.
    pose proof (upto_length (daysInMonth (getFullYear now) (getMonth now + 1))).
    cbn [length] in Hnil. lia.
Qed.

Example Math_round_ties :
  Math_round 0.5 = 1 /\ Math_round 2.5 = 3 /\ Math_round 12.5 = 13 /\
  Math_round 0 = 0 /\ Math_round 100 = 100.
Proof. now vm_compute. Qed.

(** One log in eight is 12.5 percent and rounds up to 13; 29 in 200 is
    14.5 exactly, but the double product [0.145 * 100] falls just below
    it and rounds to 14. *)
Example percentageOf_samples :
  percentageOf 1 8 = 13 /\ percentageOf 29 200 = 14 /\
  percentageOf 1 3 = 33 /\ percentageOf 2 3 = 67 /\
  percentageOf 5 5 = 100 /\ percentageOf 0 0 = 0.
Proof. now vm_compute. Qed.

(** On totals up to 400 the percentage is an integer nearest to the
    exact quotient [100 * count / total]. *)
Lemma percentageOf_nearest (count total : Z) :
  0 <= count <= total -> 1 <= total <= 400 ->
  Z.abs (2 * total * percentageOf count total - 200 * count) <= total.
Proof.
  intros Hc Ht.
  assert (Hall :
    Forall (fun t =>
      Forall (fun c => Z.abs (2 * t * percentageOf c t - 200 * c) <= t)
             (seqZ 0 (t + 1)))
      (seqZ 1 400))
    by (apply (bool_decide_unpack _); vm_compute; exact I).
  rewrite Forall_forall in Hall.
  pose proof (Hall total ltac:(apply elem_of_seqZ; lia)) as Ht'.
  rewrite Forall_forall in Ht'. apply Ht', elem_of_seqZ. lia.
Qed.

(** ** Windows computed from the clock *)

Lemma prev_day_valid c : civil_valid c -> civil_valid (prev_day c).
Proof.
  destruct c as [[y m] d]. unfold civil_valid, prev_day. intros [Hm Hd].
  destruct (1 <? d) eqn:E1.
  - apply Z.ltb_lt in E1. lia.
  - destruct (1 <? m) eqn:E2.
    + apply Z.ltb_lt in E2. pose proof (daysInMonth_range y (m - 1)). lia.
    + change (daysInMonth (y - 1) 12) with 31. lia.
Qed.

Lemma civil_before_epoch_step n :
  n < 0 -> civil n = prev_day (civil (n + 1)).
Proof.
  intros Hn. unfold civil.
  destruct (0 <=? n) eqn:E1; [apply Z.leb_le in E1; lia|].
  replace (Z.to_nat (- n)) with (S (Z.to_nat (- (n + 1)))) by lia.
  destruct (0 <=? n + 1) eqn:E2; [|reflexivity].
  apply Z.leb_le in E2. now replace n with (-1) by lia.
Qed.

(** In every era [civil] yields a date in range. *)
Lemma civil_valid_all n : civil_valid (civil n).
Proof.
  destruct (Z.le_gt_cases 0 n) as [Hn|Hn].
  - now apply civil_epoch_onwards.
  - replace n with (- Z.of_nat (Z.to_nat (- n))) by lia.
    generalize (Z.to_nat (- n)) as k. induction k as [|k IH].
    + exact (proj1 (civil_epoch_onwards 0 ltac:(lia))).
    + rewrite civil_before_epoch_step by lia. apply prev_day_valid.
      now replace (- Z.of_nat (S k) + 1) with (- Z.of_nat k) by lia.
Qed.

(** The day after, and the day before, in every era. *)
Lemma civil_succ_all n : civil (n + 1) = next_day (civil n).
Proof.
  destruct (Z.le_gt_cases 0 n) as [Hn|Hn]; [now apply civil_succ|].
  rewrite (civil_before_epoch_step n Hn).
  symmetry. apply next_prev_day, civil_valid_all.
Qed.

Lemma civil_pred_all n : civil (n - 1) = prev_day (civil n).
Proof.
  replace n with (n - 1 + 1) at 2 by lia. rewrite civil_succ_all.
  symmetry. apply prev_next_day, civil_valid_all.
Qed.

(** Moving within the month changes the day of month only. *)
Lemma civil_within_month n k :
  let '(y, m, d) := civil n in
  1 <= d + k <= daysInMonth y m -> civil (n + k) = (y, m, d + k).
Proof.
  pose proof (civil_valid_all n) as Hv.
  destruct (civil n) as [[y m] d] eqn:Hc. cbn in Hv. destruct Hv as [Hm Hd].
  destruct (Z.le_gt_cases 0 k) as [Hk|Hk].
  - pattern k. apply natlike_ind; [| |exact Hk].
    + intros _. now rewrite !Z.add_0_r.
    + intros j Hj IH Hr. replace (n + Z.succ j) with (n + j + 1) by lia.
      rewrite civil_succ_all, IH by lia. cbn.
      destruct (d + j <? daysInMonth y m) eqn:E; [|apply Z.ltb_ge in E; lia].
      f_equal. lia.
  - replace k with (- Z.of_nat (Z.to_nat (- k))) by lia.
    generalize (Z.to_nat (- k)) as j. induction j as [|j IH]; intros Hr.
    + cbn. now rewrite !Z.add_0_r.
    + replace (n + - Z.of_nat (S j)) with (n + - Z.of_nat j - 1) by lia.
      rewrite civil_pred_all, IH by lia. cbn.
      destruct (1 <? d + - Z.of_nat j) eqn:E; [|apply Z.ltb_ge in E; lia].
      f_equal. lia.
Qed.

Lemma localDay_startOfMonth now :
  localDay (startOfMonth now) = localDay now + (1 - getDate now).
Proof.
  unfold startOfMonth. now rewrite localDay_startOfDay, localDay_addDays.
Qed.

(** The days of the clock's month, counted from its first day. *)
Lemma civil_month_day (now : Date) (i : Z) :
  0 <= i < daysInMonth (getFullYear now) (getMonth now + 1) ->
  civil (localDay (startOfMonth now) + i) =
  (getFullYear now, getMonth now + 1, 1 + i).
Proof.
  intros Hi. rewrite localDay_startOfMonth.
  unfold getFullYear, getMonth, getDate in *.
  pose proof (civil_within_month (localDay now)
                (1 - (civil (localDay now)).2 + i)) as H.
  destruct (civil (localDay now)) as [[y m] d]. cbn [fst snd] in *.
  replace (m - 1 + 1) with m in * by lia.
  rewrite <- Z.add_assoc, H by lia. f_equal. lia.
Qed.

(** Within one month the date keys differ in their day field. *)
Lemma month_keys_NoDup (now : Date) :
  NoDup ((fun i => format (addDays (startOfMonth now) i)) <$>
         upto (daysInMonth (getFullYear now) (getMonth now + 1))).
Proof.
  apply NoDup_fmap_2_strong; [|apply NoDup_upto].
  intros i j Hi Hj Heq. apply elem_of_upto in Hi, Hj.
  pose proof (daysInMonth_range (getFullYear now) (getMonth now + 1)).
  unfold format, formatDay in Heq.
  rewrite !localDay_addDays, !civil_month_day in Heq by done.
  do 4 apply (inj (String.app _)) in Heq.
  rewrite !addLeadingZeros_twoDigits in Heq by lia.
  apply twoDigits_inj in Heq; lia.
Qed.

Lemma date_buckets_complete_intro (logs : list MoodLog.t)
    (startDate endDate : Date) :
  NoDup ((fun i => format (addDays startDate i)) <$>
         upto (differenceInCalendarDays endDate startDate + 1)) ->
  localDay startDate <= localDay endDate ->
  exists buckets,
    groupLogsByDate logs startDate endDate = Return buckets /\
    date_buckets_complete logs startDate endDate buckets.
Proof.
  intros Hnd Hle. eexists. split; [now apply groupLogsByDate_eq|].
  unfold date_buckets_complete. cbv zeta.
  set (numDays := differenceInCalendarDays endDate startDate + 1) in *.
  assert (Hn : numDays = localDay endDate - localDay startDate + 1).
  { unfold numDays, differenceInCalendarDays.
    now rewrite !localDay_startOfDay. }
  split; [|split; [exact Hn|]].
  { rewrite length_fmap, upto_length. lia. }
  split; [|split; [|split; [|split]]].
  - rewrite <- list_fmap_compose. apply list_fmap_ext. intros _ i _. cbn.
    unfold format. now rewrite localDay_addDays.
  - rewrite <- list_fmap_compose. exact Hnd.
  - rewrite <- list_fmap_compose. now apply list_fmap_ext.
  - rewrite <- list_fmap_compose.
    eapply StronglySorted_fmap; [|apply StronglySorted_upto].
    intros x y Hxy. cbn. unfold addDays, MS_PER_DAY. lia.
  - intros g Hg. apply list_elem_of_fmap in Hg as (i & -> & _). now cbn.
Qed.

(** The month view computed from any clock reading is complete and has
    one bucket per day of the clock's month. *)
Lemma month_view_buckets (logs : list MoodLog.t) (now : Date) :
  exists buckets,
    groupLogsByDate logs (startOfMonth now) (endOfMonth now) = Return buckets /\
    date_buckets_complete logs (startOfMonth now) (endOfMonth now) buckets /\
    Z.of_nat (length buckets) = daysInMonth (getFullYear now) (getMonth now + 1).
Proof.
  pose proof (daysInMonth_range (getFullYear now) (getMonth now + 1)) as Hd.
  destruct (date_buckets_complete_intro logs (startOfMonth now) (endOfMonth now))
    as (buckets & Heq & Hc).
  - rewrite month_window_days. apply month_keys_NoDup.
  - pose proof (month_window_days now) as Hw.
    unfold differenceInCalendarDays in Hw.
    rewrite !localDay_startOfDay in Hw. lia.
  - exists buckets. split; [exact Heq|]. split; [exact Hc|].
    destruct Hc as [Hlen _]. now rewrite Hlen, month_window_days.
Qed.

(** C8. Day bucketing returns, for every log list, exactly 24 buckets
    keyed by the hours 0..23 in ascending order; each holds the logs of
    that hour (in input order) and their number, so an hour no log falls
    in is present with an empty list and count 0.  Month bucketing
    returns exactly [differenceInCalendarDays endDate startDate + 1]
    buckets, one per calendar date from [startDate] to [endDate], keyed by
    the date's [yyyy-MM-dd] string, in ascending date order, each present
    whether or not logs match: for every month window the service
    computes from a clock reading, and for every window that starts on
    1970-01-01 or later and does not end before it starts. *)
Theorem day_and_month_buckets_complete :
  (forall logs : list MoodLog.t,
      exists buckets,
        groupLogsByHour logs = Return buckets /\
        hour_buckets_complete logs buckets) /\
  (forall (logs : list MoodLog.t) (now : Date),
      let '(startDate, endDate) := periodRange PeriodMonth now in
      exists buckets,
        groupLogsByDate logs startDate endDate = Return buckets /\
        date_buckets_complete logs startDate endDate buckets) /\
  (forall (logs : list MoodLog.t) (startDate endDate : Date),
      0 <= localDay startDate ->
      localDay startDate <= localDay endDate ->
      exists buckets,
        groupLogsByDate logs startDate endDate = Return buckets /\
        date_buckets_complete logs startDate endDate buckets).
Proof.
  split; [|split].
  - intros logs. eexists. split; [apply groupLogsByHour_eq|].
    split; [reflexivity|]. split; [reflexivity|]. split.
    + intros g Hg. apply list_elem_of_fmap in Hg as (h & -> & _). now cbn.
    + intros g Hg Hnone. apply list_elem_of_fmap in Hg as (h & -> & _).
      cbn in Hnone |- *. now rewrite (filter_none _ logs Hnone).
  - intros logs now. cbn [periodRange].
    destruct (month_view_buckets logs now) as (buckets & Heq & Hc & _). eauto.
  - intros logs startDate endDate Hs Hle.
    apply date_buckets_complete_intro; [|exact Hle].
    now apply window_keys_NoDup.
Qed.

Lemma day_and_month_buckets_complete_witness :
  exists buckets,
    groupLogsByDate [] (20758 * MS_PER_DAY) (20787 * MS_PER_DAY + 86399999) =
      Return buckets /\
    Z.of_nat (length buckets) = 30.
Proof.
  destruct (proj2 (proj2 day_and_month_buckets_complete) []
              (20758 * MS_PER_DAY) (20787 * MS_PER_DAY + 86399999)
              ltac:(vm_compute; discriminate) ltac:(vm_compute; discriminate))
    as (buckets & Heq & Hlen & _).
  exists buckets. split; [exact Heq|exact Hlen].
Defined.

(** The statistics endpoint answers with a body, never with the error of
    its [catch] block, whatever the clock reads and the repository
    returns. *)
Lemma getMoodStatsByPeriod_answers (find : Date -> Date -> list MoodLog.t)
    (now : Date) (period : Period) :
  exists stats,
    getMoodStatsByPeriod find now period = Body stats /\
    Stats.period stats = period /\
    Stats.total stats =
      Z.of_nat (length (find (periodRange period now).1 (periodRange period now).2)).
Proof.
  unfold getMoodStatsByPeriod.
  destruct period; cbn [periodRange fst snd].
  - rewrite groupLogsByHour_eq. cbn. eauto.
  - rewrite groupLogsByDay_eq. cbn. eauto.
  - destruct (month_view_buckets (find (startOfMonth now) (endOfMonth now)) now)
      as (buckets & -> & _).
    cbn. eauto.
Qed.

(** C9 at a log whose mood is named "constructor": the summary reports
    one log in total, yet holds no entry for the mood, because the
    lookup [summary.moodCounts[moodName]] finds the member inherited from
    [Object.prototype] and the counting loop never creates the entry. *)
Theorem summary_has_no_entry_for_constructor :
  let log :=
    MoodLog.mk "log-1" "user-1"
      (UserMoods.mk "user-mood-1" (Mood.mk "constructor" ":)" "#FFD700"))
      (20759 * MS_PER_DAY + 36000000) in
  let summary :=
    getMoodSummary (fun _ _ => [log]) (20759 * MS_PER_DAY + 40000000) PeriodDay in
  Summary.totalLogs summary = 1 /\
  countOf "constructor" [log] = 1 /\
  Summary.moodCounts summary !! "constructor" = None /\
  Summary.moodCounts summary = ∅.
Proof.
  cbv zeta.
  split; [reflexivity|]. split; [reflexivity|].
  split.
  { match goal with
    | |- Summary.moodCounts (getMoodSummary ?f ?n ?p) !! _ = _ =>
        pose proof (getMoodSummary_entries f n p) as H
    end.
    cbv zeta in H. destruct H as (_ & _ & H & _). apply H. left. }
  unfold getMoodSummary. cbn [periodRange]. cbv zeta.
  cbn [Summary.moodCounts fold_left].
  unfold countMood. cbv zeta. cbn [MoodLog.userMood UserMoods.mood Mood.name].
  rewrite lookup_empty. unfold js_lookup.
  rewrite bool_decide_eq_true_2 by left.
  rewrite lookup_empty. apply fmap_empty.
Qed.

(* ===================================================================== *)
(** * Part III: further properties of the service *)
(* ===================================================================== *)

(** ** The streak tracker on sequences of logs *)

(** On a server at or east of UTC, a log on the calendar day a row
    stores as [lastLogDate] assigns [lastLogDate] only, to the start of
    that very day, and [save] writes back the day already stored: the
    row stays as it is, and so it does under any number of further logs
    on that day. *)
Theorem same_day_log_is_idempotent (tz : Z) (uid : string)
    (row : StreakRecord.t) (day : Z) (logDate : Date) :
  0 <= tz < MS_PER_DAY ->
  persist row = row ->
  StreakRecord.lastLogDate row = Some (DateString day) ->
  localDay logDate = day ->
  streakRecordAfterLog tz uid (Some row) logDate =
    StreakRecord.set_lastLogDate (Some (DateObject (startOfDay logDate))) row /\
  persist (streakRecordAfterLog tz uid (Some row) logDate) = row /\
  (forall dates,
     (forall d, d ∈ dates -> localDay d = day) ->
     logAll tz uid (Some row) dates = Some row).
Proof.
  intros Htz Hp Hlast Hday.
  assert (Hstep : forall d, localDay d = day ->
            streakRecordAfterLog tz uid (Some row) d =
            StreakRecord.set_lastLogDate (Some (DateObject (startOfDay d))) row).
  { intros d Hd. unfold streakRecordAfterLog. rewrite Hlast. cbn [option_map].
    rewrite differenceInCalendarDays_gap. unfold gap.
    rewrite localDay_toDate_east by done. cbn [columnDay].
    now replace (localDay d - day) with 0 by lia. }
  assert (Hsave : forall d, localDay d = day ->
            persist (streakRecordAfterLog tz uid (Some row) d) = row).
  { intros d Hd. rewrite (Hstep d Hd).
    destruct row as [u c l last a cs ls le]. cbn in *.
    unfold persist in *. cbn in *. injection Hp as _ H2 H3 H4.
    rewrite H2, H3, H4, localDay_startOfDay, Hd. now subst last. }
  split; [now apply Hstep|]. split; [now apply Hsave|].
  induction dates as [|d ds IH]; intros Hall; [reflexivity|].
  cbn [logAll]. rewrite Hsave by (apply Hall; left).
  apply IH. intros d' Hd'. apply Hall. now right.
Qed.

Lemma same_day_log_is_idempotent_witness :
  let tz := 2 * MS_PER_HOUR in
  let row :=
    StreakRecord.mk "u" 3 5 (Some (DateString 10)) true (Some (DateString 8))
      (Some (DateString 0)) (Some (DateString 4)) in
  persist (streakRecordAfterLog tz "u" (Some row) (10 * MS_PER_DAY + 3600000)) =
    row /\
  logAll tz "u" (Some row) [10 * MS_PER_DAY + 3600000; 10 * MS_PER_DAY + 7200000] =
    Some row.
Proof.
  cbv zeta.
  destruct (same_day_log_is_idempotent (2 * MS_PER_HOUR) "u"
              (StreakRecord.mk "u" 3 5 (Some (DateString 10)) true
                 (Some (DateString 8)) (Some (DateString 0))
                 (Some (DateString 4)))
              10 (10 * MS_PER_DAY + 3600000)
              ltac:(unfold MS_PER_HOUR, MS_PER_DAY; lia) eq_refl eq_refl eq_refl)
    as (_ & Hsave & Hall).
  split; [exact Hsave|]. apply Hall.
  intros d Hd. apply elem_of_cons in Hd as [->|Hd]; [reflexivity|].
  apply list_elem_of_singleton in Hd. now subst d.
Defined.

(** On a server west of UTC the stored [lastLogDate] is read back as
    the day before.  A log on the stored day itself is then taken for
    the next consecutive day and raises [currentStreak]; a log on the
    day after the stored one is taken for a gap of two days and resets
    [currentStreak] to 1; only a log on the day before the stored one is
    taken for the same day. *)
Theorem west_of_utc_reads_day_early (tz : Z) (uid : string)
    (row : StreakRecord.t) (day : Z) (logDate : Date) :
  - MS_PER_DAY <= tz < 0 ->
  StreakRecord.lastLogDate row = Some (DateString day) ->
  let saved := streakRecordAfterLog tz uid (Some row) logDate in
  let today := Some (DateObject (startOfDay logDate)) in
  (localDay logDate = day ->
     StreakRecord.currentStreak saved = StreakRecord.currentStreak row + 1) /\
  (localDay logDate = day + 1 ->
     StreakRecord.currentStreak saved = 1 /\
     StreakRecord.currentStreakStartDate saved = today /\
     StreakRecord.longestStreak saved = StreakRecord.longestStreak row) /\
  (localDay logDate = day - 1 ->
     saved = StreakRecord.set_lastLogDate today row).
Proof.
  intros Htz Hlast. cbv zeta. unfold streakRecordAfterLog.
  rewrite Hlast. cbn [option_map].
  rewrite differenceInCalendarDays_gap. unfold gap.
  rewrite localDay_toDate_west by done.
  split; [|split]; intros Hday.
  - replace (localDay logDate - (day - 1)) with 1 by lia. cbn.
    now destruct (StreakRecord.longestStreak row <? _).
  - replace (localDay logDate - (day - 1)) with 2 by lia. cbn. done.
  - replace (localDay logDate - (day - 1)) with 0 by lia. reflexivity.
Qed.

Lemma west_of_utc_reads_day_early_witness :
  let tz := -5 * MS_PER_HOUR in
  let row :=
    StreakRecord.mk "u" 3 5 (Some (DateString 10)) true (Some (DateString 8))
      (Some (DateString 0)) (Some (DateString 4)) in
  StreakRecord.currentStreak
    (streakRecordAfterLog tz "u" (Some row) (10 * MS_PER_DAY + 3600000)) = 4 /\
  StreakRecord.currentStreak
    (streakRecordAfterLog tz "u" (Some row) (11 * MS_PER_DAY + 3600000)) = 1.
Proof.
  cbv zeta. split.
  - exact (proj1 (west_of_utc_reads_day_early (-5 * MS_PER_HOUR) "u"
             (StreakRecord.mk "u" 3 5 (Some (DateString 10)) true
                (Some (DateString 8)) (Some (DateString 0))
                (Some (DateString 4)))
             10 (10 * MS_PER_DAY + 3600000)
             ltac:(unfold MS_PER_HOUR, MS_PER_DAY; lia) eq_refl) eq_refl).
  - exact (proj1 (proj1 (proj2 (west_of_utc_reads_day_early (-5 * MS_PER_HOUR) "u"
             (StreakRecord.mk "u" 3 5 (Some (DateString 10)) true
                (Some (DateString 8)) (Some (DateString 0))
                (Some (DateString 4)))
             10 (11 * MS_PER_DAY + 3600000)
             ltac:(unfold MS_PER_HOUR, MS_PER_DAY; lia) eq_refl)) eq_refl)).
Defined.

(** Whatever record it is handed, an update never lowers
    [longestStreak], raises [currentStreak] by at most one, and keeps the
    record under the same user. *)
Theorem update_never_lowers_longest (uid : string) (r : MoodStreaks)
    (logDate : Date) :
  let r' := streakAfterLog uid (Some r) logDate in
  longestStreak r <= longestStreak r' /\
  (currentStreak r' <= currentStreak r + 1 \/ currentStreak r' = 1) /\
  userId r' = userId r.
Proof.
  cbv zeta. destruct (lastLogDate r) as [last|] eqn:Hlast.
  - streak_branch Hlast.
    destruct (gap logDate last =? 0);
      [cbn; split; [lia|split; [lia|reflexivity]]|].
    destruct (gap logDate last =? 1).
    + destruct (longestStreak r <? currentStreak r + 1) eqn:E; cbn;
        [apply Z.ltb_lt in E|]; (split; [lia|split; [lia|reflexivity]]).
    + destruct (1 <? gap logDate last); cbn;
        (split; [lia|split; [lia|reflexivity]]).
  - rewrite (streakAfterLog_no_lastLogDate _ _ _ Hlast). cbn.
    split; [lia|split; [lia|reflexivity]].
Qed.

Lemma streak_ranges_agree_first (uid : string) (logDate : Date) :
  streak_ranges_agree (streakAfterLog uid None logDate).
Proof.
  exists (startOfDay logDate), (startOfDay logDate), (startOfDay logDate),
    (startOfDay logDate).
  cbn. rewrite !startOfDay_idem. repeat split; lia.
Qed.

Lemma streak_ranges_agree_preserved (uid : string) (r : MoodStreaks)
    (logDate : Date) :
  streak_ranges_agree r ->
  streak_ranges_agree (streakAfterLog uid (Some r) logDate).
Proof.
  intros (s & l & ls & le & Hs & Hl & Hls & Hle & Hc & Hlg & Hb &
          Hel & Ss & Sl & Sls & Sle).
  streak_branch Hl.
  destruct (gap logDate l =? 0) eqn:H0.
  { apply Z.eqb_eq in H0. unfold gap in H0.
    exists s, (startOfDay logDate), ls, le. cbn.
    rewrite localDay_startOfDay, startOfDay_idem.
    repeat split; try done; lia. }
  destruct (gap logDate l =? 1) eqn:H1.
  { apply Z.eqb_eq in H1. unfold gap in H1.
    destruct (longestStreak r <? currentStreak r + 1) eqn:Hlt;
      [apply Z.ltb_lt in Hlt | apply Z.ltb_ge in Hlt].
    - exists s, (startOfDay logDate), s, (startOfDay logDate). cbn.
      rewrite localDay_startOfDay, startOfDay_idem.
      repeat split; try done; lia.
    - exists s, (startOfDay logDate), ls, le. cbn.
      rewrite localDay_startOfDay, startOfDay_idem.
      repeat split; try done; lia. }
  destruct (1 <? gap logDate l) eqn:H2.
  { apply Z.ltb_lt in H2. unfold gap in H2.
    exists (startOfDay logDate), (startOfDay logDate), ls, le. cbn.
    rewrite localDay_startOfDay, startOfDay_idem.
    repeat split; try done; lia. }
  exists s, l, ls, le. repeat split; try done; lia.
Qed.

(** On a server at or east of UTC, in every row reachable from a
    first-ever log the streak lengths are the lengths of the stored date
    ranges: [currentStreak] is the number of days from
    [currentStreakStartDate] to [lastLogDate], [longestStreak] the
    number of days from [longestStreakStartDate] to
    [longestStreakEndDate]; all four dates are present. *)
Theorem reachable_ranges_agree (tz : Z) (row : StreakRecord.t) :
  0 <= tz < MS_PER_DAY ->
  reachable tz row -> streak_ranges_agree (storedDays row).
Proof.
  intros Htz. induction 1 as [uid logDate | row logDate _ IH].
  - rewrite storedDays_step by done. apply streak_ranges_agree_first.
  - rewrite storedDays_step by done. cbn [option_map].
    now apply streak_ranges_agree_preserved.
Qed.

Lemma reachable_ranges_agree_witness :
  let tz := 2 * MS_PER_HOUR in
  let first := persist (streakRecordAfterLog tz "u" None (3 * MS_PER_DAY + 9)) in
  streak_ranges_agree
    (storedDays
       (persist (streakRecordAfterLog tz "u" (Some first) (4 * MS_PER_DAY + 1)))).
Proof.
  cbv zeta.
  exact (reachable_ranges_agree (2 * MS_PER_HOUR) _
           ltac:(unfold MS_PER_HOUR, MS_PER_DAY; lia)
           (reach_log (2 * MS_PER_HOUR) _ (4 * MS_PER_DAY + 1)
              (reach_first (2 * MS_PER_HOUR) "u" (3 * MS_PER_DAY + 9)))).
Defined.

(** Adding a day later than every logged day keeps a bound on the runs
    of logged days, provided the run that ends at the new day obeys it. *)
Lemma longest_run_extend (days : list Z) (t S M : Z) :
  (forall d, d ∈ days -> d < t) ->
  (forall a b, a <= b -> run_logged days a b -> b - a + 1 <= M) ->
  (S - 1) ∉ days -> S <= t -> t - S + 1 <= M ->
  forall a b, a <= b -> run_logged (days ++ [t]) a b -> b - a + 1 <= M.
Proof.
  intros Hlt Hold HS HSt HM a b Hab Hrun.
  assert (Hb : b ∈ days ++ [t]) by (apply Hrun; lia).
  apply elem_of_app in Hb as [Hb|Hb].
  - apply Hold; [done|]. intros d Hd.
    pose proof (Hlt _ Hb).
    pose proof (Hrun d Hd) as Hin. apply elem_of_app in Hin as [Hin|Hin]; [done|].
    apply list_elem_of_singleton in Hin. lia.
  - apply list_elem_of_singleton in Hb. subst b.
    destruct (Z.le_gt_cases S a) as [Ha|Ha]; [lia|]. exfalso.
    pose proof (Hrun (S - 1) ltac:(lia)) as Hin.
    apply elem_of_app in Hin as [Hin|Hin]; [done|].
    apply list_elem_of_singleton in Hin. lia.
Qed.

Lemma streak_counts_runs_first (uid : string) (logDate : Date) :
  streak_counts_runs [localDay logDate] (streakAfterLog uid None logDate).
Proof.
  exists (startOfDay logDate), (startOfDay logDate), (startOfDay logDate),
    (startOfDay logDate).
  cbn. rewrite !localDay_startOfDay.
  assert (Hone : forall d, d ∈ [localDay logDate] <-> d = localDay logDate)
    by (intros d; apply list_elem_of_singleton).
  repeat split; try done; try lia.
  - now apply Hone.
  - intros d Hd. apply Hone in Hd. lia.
  - intros d Hd. apply Hone. lia.
  - intros Hd. apply Hone in Hd. lia.
  - intros d Hd. apply Hone. lia.
  - intros a b Hab Hrun.
    pose proof (proj1 (Hone a) (Hrun a ltac:(lia))).
    pose proof (proj1 (Hone b) (Hrun b ltac:(lia))). lia.
Qed.

(** One more log, on the latest logged day or later, keeps the record in
    step with the runs of logged days. *)
Lemma streak_counts_runs_step (uid : string) (days : list Z) (r : MoodStreaks)
    (logDate : Date) :
  streak_counts_runs days r ->
  (forall d, d ∈ days -> d <= localDay logDate) ->
  streak_counts_runs (days ++ [localDay logDate])
    (streakAfterLog uid (Some r) logDate).
Proof.
  intros (s & l & ls & le & Hs & Hl & Hls & Hle & Hlin & Hmax & Hc & Hb &
          Hrun & Hpre & Hlg & Hlrun & Hbound) Hlate.
  set (t := localDay logDate) in *.
  assert (Hin : forall d, d ∈ days ++ [t] <-> d ∈ days \/ d = t).
  { intros d. rewrite elem_of_app, list_elem_of_singleton. tauto. }
  pose proof (Hlate _ Hlin) as HLt.
  streak_branch Hl. unfold gap. fold t.
  destruct (t - localDay l =? 0) eqn:H0.
  { apply Z.eqb_eq in H0. assert (Ht : t = localDay l) by lia.
    exists s, (startOfDay logDate), ls, le. cbn.
    rewrite localDay_startOfDay. fold t.
    assert (Hsame : forall d, d ∈ days ++ [t] -> d ∈ days).
    { intros d Hd. apply Hin in Hd as [Hd| ->]; [done|]. now rewrite Ht. }
    repeat split; try done; try lia.
    - apply Hin. now right.
    - intros d Hd. apply Hsame in Hd. rewrite Ht. now apply Hmax.
    - intros d Hd. apply Hin. left. apply Hrun. lia.
    - intros Hd. apply Hpre. now apply Hsame.
    - intros d Hd. apply Hin. left. now apply Hlrun.
    - intros a b Hab Hr. apply Hbound; [done|].
      intros d Hd. apply Hsame. now apply Hr. }
  apply Z.eqb_neq in H0.
  assert (Hlt : forall d, d ∈ days -> d < t).
  { intros d Hd. pose proof (Hmax _ Hd). lia. }
  destruct (t - localDay l =? 1) eqn:H1.
  { apply Z.eqb_eq in H1.
    assert (Hnew : forall M, currentStreak r + 1 <= M -> longestStreak r <= M ->
              forall a b, a <= b -> run_logged (days ++ [t]) a b -> b - a + 1 <= M).
    { intros M HM1 HM2. apply (longest_run_extend days t (localDay s) M);
        try done; try lia.
      intros a b Hab Hr. pose proof (Hbound a b Hab Hr). lia. }
    destruct (longestStreak r <? currentStreak r + 1) eqn:Hcmp;
      [apply Z.ltb_lt in Hcmp | apply Z.ltb_ge in Hcmp].
    - exists s, (startOfDay logDate), s, (startOfDay logDate). cbn.
      rewrite localDay_startOfDay. fold t.
      repeat split; try done; try lia.
      + apply Hin. now right.
      + intros d Hd. apply Hin in Hd as [Hd| ->]; [|lia].
        pose proof (Hlt _ Hd). lia.
      + intros d Hd. apply Hin.
        destruct (decide (d = t)); [now right|left]. apply Hrun. lia.
      + intros Hd. apply Hin in Hd as [Hd|Hd]; [done|lia].
      + intros d Hd. apply Hin.
        destruct (decide (d = t)); [now right|left]. apply Hrun. lia.
      + apply Hnew; lia.
    - exists s, (startOfDay logDate), ls, le. cbn.
      rewrite localDay_startOfDay. fold t.
      repeat split; try done; try lia.
      + apply Hin. now right.
      + intros d Hd. apply Hin in Hd as [Hd| ->]; [|lia].
        pose proof (Hlt _ Hd). lia.
      + intros d Hd. apply Hin.
        destruct (decide (d = t)); [now right|left]. apply Hrun. lia.
      + intros Hd. apply Hin in Hd as [Hd|Hd]; [done|lia].
      + intros d Hd. apply Hin. left. now apply Hlrun.
      + apply Hnew; lia. }
  apply Z.eqb_neq in H1.
  destruct (1 <? t - localDay l) eqn:H2; [|apply Z.ltb_ge in H2; lia].
  apply Z.ltb_lt in H2.
  exists (startOfDay logDate), (startOfDay logDate), ls, le. cbn.
  rewrite localDay_startOfDay. fold t.
  repeat split; try done; try lia.
  - apply Hin. now right.
  - intros d Hd. apply Hin in Hd as [Hd| ->]; [|lia].
    pose proof (Hlt _ Hd). lia.
  - intros d Hd. apply Hin. right. lia.
  - intros Hd. apply Hin in Hd as [Hd|Hd]; [|lia].
    pose proof (Hmax _ Hd). lia.
  - intros d Hd. apply Hin. left. now apply Hlrun.
  - apply (longest_run_extend days t t (longestStreak r)); try done; try lia.
    intros Hd. pose proof (Hmax _ Hd). lia.
Qed.

Lemma updates_count_runs (uid : string) (dates : list Date) :
  forall (seen : list Z) (r : MoodStreaks),
    streak_counts_runs seen r ->
    StronglySorted Z.le (localDay <$> dates) ->
    (forall d x, d ∈ seen -> x ∈ dates -> d <= localDay x) ->
    exists r',
      fold_left (fun found d => Some (streakAfterLog uid found d)) dates
        (Some r) = Some r' /\
      streak_counts_runs (seen ++ (localDay <$> dates)) r'.
Proof.
  induction dates as [|x xs IH]; intros seen r Hinv Hsorted Hlate.
  - exists r. cbn. now rewrite app_nil_r.
  - cbn [fold_left]. cbn in Hsorted. apply StronglySorted_cons in Hsorted as [Hx Hxs].
    destruct (IH (seen ++ [localDay x]) (streakAfterLog uid (Some r) x))
      as (r' & Hr' & Hinv').
    + apply streak_counts_runs_step; [done|].
      intros d Hd. apply Hlate; [done|left].
    + exact Hxs.
    + intros d y Hd Hy. apply elem_of_app in Hd as [Hd|Hd].
      * apply Hlate; [done|now right].
      * apply list_elem_of_singleton in Hd. subst d.
        rewrite Forall_forall in Hx. apply Hx. now apply list_elem_of_fmap_2.
    + exists r'. split; [done|]. cbn. now rewrite <- app_assoc in Hinv'.
Qed.

(** On a server at or east of UTC, when a user's logs arrive in
    calendar order the stored row describes the runs of consecutive
    logged days: [currentStreak] is the length of the run ending at the
    latest logged day ([k] days back from it are all logged exactly when
    [k <= currentStreak]), [longestStreak] is the length of a run of
    logged days, spanning the stored longest range, and no run of logged
    days is longer. *)
Theorem ordered_logs_count_runs (tz : Z) (uid : string) (date : Date)
    (dates : list Date) :
  0 <= tz < MS_PER_DAY ->
  StronglySorted Z.le (localDay <$> date :: dates) ->
  let days := localDay <$> date :: dates in
  exists row l,
    logAll tz uid None (date :: dates) = Some row /\
    streak_counts_runs days (storedDays row) /\
    lastLogDate (storedDays row) = Some l /\
    (forall k, 1 <= k ->
       run_logged days (localDay l - k + 1) (localDay l) <->
       k <= currentStreak (storedDays row)).
Proof.
  intros Htz Hsorted. cbv zeta. cbn in Hsorted.
  apply StronglySorted_cons in Hsorted as [Hx Hxs].
  destruct (updates_count_runs uid dates [localDay date]
              (streakAfterLog uid None date)) as (r & Hr & Hinv).
  - apply streak_counts_runs_first.
  - exact Hxs.
  - intros d x Hd Hin. apply list_elem_of_singleton in Hd. subst d.
    rewrite Forall_forall in Hx. apply Hx. now apply list_elem_of_fmap_2.
  - change ([localDay date] ++ (localDay <$> dates))
      with (localDay <$> date :: dates) in Hinv.
    pose proof (logAll_storedDays tz uid (date :: dates) Htz None) as Hrun.
    cbn [fold_left option_map] in Hrun. rewrite Hr in Hrun.
    destruct (logAll tz uid None (date :: dates)) as [row|]; [|discriminate].
    cbn [option_map] in Hrun. injection Hrun as Hrow. rewrite <- Hrow in *.
    pose proof Hinv as (s & l & ls & le & Hs & Hl & _ & _ & _ & _ & Hc & Hb &
                        Hrunl & Hpre & _).
    exists row, l. split; [reflexivity|]. split; [exact Hinv|]. split; [exact Hl|].
    intros k Hk. split.
    + intros Hk_run.
      destruct (Z.le_gt_cases k (currentStreak (storedDays row))); [done|].
      exfalso. apply Hpre. apply Hk_run. lia.
    + intros Hle d Hd. apply Hrunl. lia.
Qed.

Lemma ordered_logs_count_runs_witness :
  exists row,
    logAll (2 * MS_PER_HOUR) "u" None
      [1 * MS_PER_DAY; 2 * MS_PER_DAY + 5; 2 * MS_PER_DAY + 9; 5 * MS_PER_DAY] =
      Some row /\
    streak_counts_runs [1; 2; 2; 5] (storedDays row).
Proof.
  destruct (ordered_logs_count_runs (2 * MS_PER_HOUR) "u" (1 * MS_PER_DAY)
              [2 * MS_PER_DAY + 5; 2 * MS_PER_DAY + 9; 5 * MS_PER_DAY]
              ltac:(unfold MS_PER_HOUR, MS_PER_DAY; lia)
              ltac:(apply (bool_decide_unpack _); vm_compute; exact I))
    as (row & l & Hrow & Hinv & _).
  exists row. split; [exact Hrow|exact Hinv].
Defined.

(** On a server at or east of UTC, whatever the order in which a user's
    logs arrive, the stored [lastLogDate] is the latest calendar day
    that carries a log: a backdated log never moves it. *)
Theorem lastLogDate_is_latest_day (tz : Z) (uid : string) (date : Date)
    (dates : list Date) :
  0 <= tz < MS_PER_DAY ->
  exists row v,
    logAll tz uid None (date :: dates) = Some row /\
    StreakRecord.lastLogDate row = Some v /\
    columnDay v ∈ (localDay <$> date :: dates) /\
    (forall d, d ∈ (localDay <$> date :: dates) -> d <= columnDay v).
Proof.
  intros Htz.
  assert (Hgen : forall (ds : list Date) (seen : list Z) (r : MoodStreaks) l,
             lastLogDate r = Some l ->
             localDay l ∈ seen -> (forall d, d ∈ seen -> d <= localDay l) ->
             exists r' l',
               fold_left (fun found d => Some (streakAfterLog uid found d)) ds
                 (Some r) = Some r' /\
               lastLogDate r' = Some l' /\
               localDay l' ∈ seen ++ (localDay <$> ds) /\
               (forall d, d ∈ seen ++ (localDay <$> ds) -> d <= localDay l')).
  { induction ds as [|x xs IH]; intros seen r l Hl Hin Hmax.
    - exists r, l. cbn. now rewrite app_nil_r.
    - cbn [fold_left fmap list_fmap].
      replace (seen ++ localDay x :: (localDay <$> xs))
        with ((seen ++ [localDay x]) ++ (localDay <$> xs))
        by now rewrite <- app_assoc.
      assert (Hcase :
        exists l', lastLogDate (streakAfterLog uid (Some r) x) = Some l' /\
                   localDay l' = Z.max (localDay l) (localDay x)).
      { streak_branch Hl. unfold gap.
        destruct (localDay x - localDay l =? 0) eqn:H0.
        { apply Z.eqb_eq in H0. exists (startOfDay x). cbn.
          rewrite localDay_startOfDay. split; [done|lia]. }
        destruct (localDay x - localDay l =? 1) eqn:H1.
        { apply Z.eqb_eq in H1. exists (startOfDay x).
          destruct (longestStreak r <? currentStreak r + 1); cbn;
            rewrite localDay_startOfDay; (split; [done|lia]). }
        destruct (1 <? localDay x - localDay l) eqn:H2.
        { apply Z.ltb_lt in H2. exists (startOfDay x). cbn.
          rewrite localDay_startOfDay. split; [done|lia]. }
        apply Z.eqb_neq in H0, H1. apply Z.ltb_ge in H2.
        exists l. split; [done|lia]. }
      destruct Hcase as (l' & Hl' & Hmax').
      apply (IH _ _ l'); [done| |].
      + apply elem_of_app.
        destruct (Z.max_spec (localDay l) (localDay x)) as [[_ E]|[_ E]];
          rewrite Hmax', E; [right; left|now left].
      + intros d Hd. apply elem_of_app in Hd as [Hd|Hd].
        * pose proof (Hmax _ Hd). lia.
        * apply list_elem_of_singleton in Hd. lia. }
  destruct (Hgen dates [localDay date] (streakAfterLog uid None date)
              (startOfDay date)) as (r' & l' & Hr' & Hl' & Hin' & Hmax').
  - reflexivity.
  - rewrite localDay_startOfDay. left.
  - intros d Hd. apply list_elem_of_singleton in Hd.
    rewrite localDay_startOfDay. lia.
  - pose proof (logAll_storedDays tz uid (date :: dates) Htz None) as Hrun.
    cbn [fold_left option_map] in Hrun. rewrite Hr' in Hrun.
    destruct (logAll tz uid None (date :: dates)) as [row|]; [|discriminate].
    cbn [option_map] in Hrun. injection Hrun as Hrow. subst r'.
    unfold storedDays in Hl'. cbn [lastLogDate] in Hl'.
    destruct (StreakRecord.lastLogDate row) as [v|] eqn:Hv; [|discriminate].
    cbn [option_map] in Hl'. injection Hl' as <-.
    rewrite localDay_midnight in Hin', Hmax'.
    exists row, v. split; [reflexivity|]. split; [exact Hv|].
    split; [exact Hin'|exact Hmax'].
Qed.

Lemma lastLogDate_is_latest_day_witness :
  exists row v,
    logAll (2 * MS_PER_HOUR) "u" None
      [5 * MS_PER_DAY + 1; 3 * MS_PER_DAY; 4 * MS_PER_DAY] = Some row /\
    StreakRecord.lastLogDate row = Some v /\
    columnDay v ∈ [5; 3; 4] /\
    (forall d, d ∈ [5; 3; 4] -> d <= columnDay v).
Proof.
  exact (lastLogDate_is_latest_day (2 * MS_PER_HOUR) "u" (5 * MS_PER_DAY + 1)
           [3 * MS_PER_DAY; 4 * MS_PER_DAY]
           ltac:(unfold MS_PER_HOUR, MS_PER_DAY; lia)).
Defined.

(** Users do not interfere, in any zone: after any interleaving of log
    events the row stored for a user is what that user's own log dates,
    taken in order through the same table, produce from no row at
    all. *)
Theorem replayStreaks_per_user (tz : Z) (events : list (string * Date))
    (uid : string) :
  replayStreaks tz events ∅ !! uid = logAll tz uid None (datesOf uid events).
Proof.
  unfold replayStreaks, datesOf.
  change (@None StreakRecord.t) with ((∅ : gmap string StreakRecord.t) !! uid).
  generalize (∅ : gmap string StreakRecord.t) as repo.
  induction events as [|[u d] events IH]; intros repo; [done|].
  cbn [fold_left]. rewrite IH. cbn [updateUserStreak fst snd].
  destruct (decide (u = uid)) as [->|Hne].
  - rewrite filter_cons_True by done. cbn. now rewrite lookup_insert_eq.
  - rewrite filter_cons_False by done. now rewrite lookup_insert_ne.
Qed.

(** ** The statistics and summary answers *)

Lemma filter_key_split {A K} `{EqDecision K} (key : A -> K) (k : K)
    (ks : list K) (l : list A) :
  k ∉ ks ->
  length (filter (fun x => key x ∈ k :: ks) l) =
  (length (filter (fun x => key x = k) l) +
   length (filter (fun x => key x ∈ ks) l))%nat.
Proof.
  intros Hk. induction l as [|x l IH]; [done|].
  destruct (decide (key x = k)) as [Hx|Hx].
  - rewrite (filter_cons_True (fun x => key x ∈ k :: ks)) by (rewrite Hx; left).
    rewrite (filter_cons_True (fun x => key x = k)) by done.
    rewrite (filter_cons_False (fun x => key x ∈ ks)) by now rewrite Hx.
    cbn. now rewrite IH.
  - rewrite (filter_cons_False (fun x => key x = k)) by done.
    destruct (decide (key x ∈ ks)) as [Hin|Hin].
    + rewrite (filter_cons_True (fun x => key x ∈ k :: ks)) by now right.
      rewrite (filter_cons_True (fun x => key x ∈ ks)) by done.
      cbn. rewrite IH. lia.
    + rewrite (filter_cons_False (fun x => key x ∈ k :: ks))
        by (rewrite elem_of_cons; tauto).
      rewrite (filter_cons_False (fun x => key x ∈ ks)) by done.
      exact IH.
Qed.

(** Grouping by pairwise distinct keys counts each element whose key is
    among them exactly once. *)
Lemma grouped_counts_sum {A K} `{EqDecision K} (key : A -> K) (ks : list K)
    (l : list A) :
  NoDup ks ->
  sumZ ((fun k => Z.of_nat (length (filter (fun x => key x = k) l))) <$> ks) =
  Z.of_nat (length (filter (fun x => key x ∈ ks) l)).
Proof.
  induction 1 as [|k ks Hk Hnd IH].
  - rewrite (filter_none (fun x => key x ∈ [])); [done|].
    intros x _. apply not_elem_of_nil.
  - rewrite fmap_cons. change (sumZ (?x :: ?t)) with (x + sumZ t).
    rewrite IH, (filter_key_split key k ks l Hk). lia.
Qed.

Lemma filter_all {A} (P : A -> Prop) `{forall x, Decision (P x)} (l : list A) :
  (forall x, x ∈ l -> P x) -> filter P l = l.
Proof.
  induction l as [|x l IH]; intros Hall; [done|].
  rewrite filter_cons_True by (apply Hall; left).
  f_equal. apply IH. intros y Hy. apply Hall. now right.
Qed.

(** A date inside a window renders to one of the window's keys. *)
Lemma format_in_window (startDate endDate d : Date) :
  startDate <= d <= endDate ->
  format d ∈ ((fun i => format (addDays startDate i)) <$>
              upto (differenceInCalendarDays endDate startDate + 1)).
Proof.
  intros [Hs He]. apply list_elem_of_fmap.
  exists (localDay d - localDay startDate). split.
  - unfold format. rewrite localDay_addDays. f_equal. lia.
  - apply elem_of_upto. unfold differenceInCalendarDays.
    rewrite !localDay_startOfDay.
    assert (localDay startDate <= localDay d)
      by (apply Z.div_le_mono; unfold MS_PER_DAY; lia).
    assert (localDay d <= localDay endDate)
      by (apply Z.div_le_mono; unfold MS_PER_DAY; lia).
    lia.
Qed.

(** No log the repository hands over is dropped or counted twice: the
    bucket counts of a statistics answer add up to its [total].  For the
    day and week views this holds for any logs; for the month view the
    logs must lie in the queried range, as the query's [Between] clause
    grants. *)
Theorem stats_counts_add_up (find : Date -> Date -> list MoodLog.t)
    (now : Date) (period : Period) :
  (period = PeriodMonth ->
   forall log,
     log ∈ find (periodRange period now).1 (periodRange period now).2 ->
     (periodRange period now).1 <= MoodLog.moodDate log
       <= (periodRange period now).2) ->
  exists stats,
    getMoodStatsByPeriod find now period = Body stats /\
    sumZ (bucketCounts (Stats.data stats)) = Stats.total stats.
Proof.
  intros Hwin. unfold getMoodStatsByPeriod.
  destruct period; cbn [periodRange fst snd] in *.
  - rewrite groupLogsByHour_eq. cbn [bind]. eexists. split; [reflexivity|].
    cbn [Stats.data Stats.total bucketCounts].
    rewrite <- list_fmap_compose.
    set (logs := find _ _).
    transitivity (sumZ ((fun k => Z.of_nat (length (filter
                    (fun x => getHours (MoodLog.moodDate x) = k) logs)))
                  <$> upto 24)); [reflexivity|].
    rewrite grouped_counts_sum by apply NoDup_upto.
    rewrite filter_all; [done|].
    intros x _. apply elem_of_upto, getHours_range.
  - rewrite groupLogsByDay_eq. cbn [bind]. eexists. split; [reflexivity|].
    cbn [Stats.data Stats.total bucketCounts].
    rewrite <- list_fmap_compose.
    set (logs := find _ _).
    transitivity (sumZ ((fun k => Z.of_nat (length (filter
                    (fun x => getDay (MoodLog.moodDate x) = k) logs)))
                  <$> upto 7)); [reflexivity|].
    rewrite grouped_counts_sum by apply NoDup_upto.
    rewrite filter_all; [done|].
    intros x _. apply elem_of_upto, getDay_range.
  - specialize (Hwin eq_refl).
    set (logs := find _ _) in *.
    pose proof (month_keys_NoDup now) as Hnd.
    rewrite <- month_window_days in Hnd.
    rewrite (groupLogsByDate_eq logs _ _ Hnd). cbn [bind].
    eexists. split; [reflexivity|].
    cbn [Stats.data Stats.total bucketCounts].
    rewrite <- list_fmap_compose.
    set (n := differenceInCalendarDays _ _ + 1) in *.
    transitivity (sumZ ((fun k => Z.of_nat (length (filter
                    (fun x => format (MoodLog.moodDate x) = k) logs)))
                  <$> ((fun i => format (addDays (startOfMonth now) i))
                       <$> upto n))).
    { rewrite <- list_fmap_compose. reflexivity. }
    rewrite grouped_counts_sum by exact Hnd.
    rewrite filter_all; [done|].
    intros x Hx. apply format_in_window. now apply Hwin.
Qed.

Lemma stats_counts_add_up_witness :
  let now := 20759 * MS_PER_DAY + 36000000 in
  let log :=
    MoodLog.mk "log-1" "user-1"
      (UserMoods.mk "user-mood-1" (Mood.mk "Happy" ":)" "#FFD700")) now in
  exists stats,
    getMoodStatsByPeriod (fun _ _ => [log]) now PeriodMonth = Body stats /\
    sumZ (bucketCounts (Stats.data stats)) = Stats.total stats.
Proof.
  cbv zeta.
  apply (stats_counts_add_up _ (20759 * MS_PER_DAY + 36000000) PeriodMonth).
  intros _ log Hlog. apply list_elem_of_singleton in Hlog. subst log.
  vm_compute. split; discriminate.
Defined.

(** The category axis of the summary names exactly the buckets of the
    statistics answer for the same period and clock reading, in the
    same order. *)
Theorem summary_categories_match_buckets
    (find find' : Date -> Date -> list MoodLog.t) (now : Date) (period : Period) :
  exists stats,
    getMoodStatsByPeriod find now period = Body stats /\
    Summary.categories (getMoodSummary find' now period) =
      bucketKeys (Stats.data stats).
Proof.
  unfold getMoodStatsByPeriod, getMoodSummary.
  destruct period; cbn [periodRange fst snd Summary.categories
                        getCategoriesForPeriod].
  - rewrite groupLogsByHour_eq. cbn [bind]. eexists. split; [reflexivity|].
    cbn [Stats.data bucketKeys]. now rewrite <- list_fmap_compose.
  - rewrite groupLogsByDay_eq. cbn [bind]. eexists. split; [reflexivity|].
    reflexivity.
  - pose proof (month_keys_NoDup now) as Hnd.
    rewrite <- month_window_days in Hnd.
    rewrite (groupLogsByDate_eq _ _ _ Hnd). cbn [bind].
    eexists. split; [reflexivity|].
    cbn [Stats.data bucketKeys]. now rewrite <- list_fmap_compose.
Qed.

(** ** The period window *)

Lemma startOfDay_le d : startOfDay d <= d.
Proof.
  unfold startOfDay, localDay, MS_PER_DAY.
  rewrite Z.mul_comm. apply Z.mul_div_le. lia.
Qed.

Lemma endOfDay_ge d : d <= endOfDay d.
Proof.
  unfold endOfDay, startOfDay, localDay, MS_PER_DAY.
  pose proof (Z.div_mod d 86400000 ltac:(lia)).
  pose proof (Z.mod_pos_bound d 86400000 ltac:(lia)). lia.
Qed.

Lemma endOfDay_idem d : endOfDay (endOfDay d) = endOfDay d.
Proof.
  unfold endOfDay at 1. unfold startOfDay. rewrite localDay_endOfDay. reflexivity.
Qed.

(** A window that opens some days back and closes some days ahead
    contains the clock reading. *)
Lemma window_around (now : Date) (back ahead : Z) :
  0 <= back -> 0 <= ahead ->
  startOfDay (addDays now (- back)) <= now <= endOfDay (addDays now ahead).
Proof.
  intros Hb Ha. pose proof (startOfDay_le now). pose proof (endOfDay_ge now).
  unfold endOfDay, startOfDay in *. rewrite !localDay_addDays.
  unfold MS_PER_DAY in *. nia.
Qed.

(** The range queried for a period contains the clock reading, opens at
    the start of a day and closes at the end of one, and spans one day,
    the seven days Monday to Sunday, or the days of the clock's month
    from its first day on. *)
Theorem period_window_contains_now (period : Period) (now : Date) :
  let startDate := (periodRange period now).1 in
  let endDate := (periodRange period now).2 in
  startDate <= now <= endDate /\
  startOfDay startDate = startDate /\
  endOfDay endDate = endDate /\
  differenceInCalendarDays endDate startDate + 1 =
    match period with
    | PeriodDay => 1
    | PeriodWeek => 7
    | PeriodMonth => daysInMonth (getFullYear now) (getMonth now + 1)
    end /\
  match period with
  | PeriodDay => localDay startDate = localDay now
  | PeriodWeek => getDay startDate = 1 /\ getDay endDate = 0
  | PeriodMonth =>
      getDate startDate = 1 /\
      getMonth startDate = getMonth now /\
      getFullYear startDate = getFullYear now
  end.
Proof.
  cbv zeta. destruct period; cbn [periodRange fst snd].
  - split; [split; [apply startOfDay_le|apply endOfDay_ge]|].
    split; [apply startOfDay_idem|]. split; [apply endOfDay_idem|].
    unfold differenceInCalendarDays.
    rewrite !localDay_startOfDay, localDay_endOfDay. lia.
  - pose proof (getDay_range now) as Hd.
    pose proof (week_window_starts_on_monday now) as Hmon.
    cbn [periodRange fst] in Hmon.
    unfold startOfWeek, endOfWeek in *.
    set (day := getDay now) in *.
    assert (Hback : 0 <= (if day <? 1 then 7 else 0) + day - 1 <= 6)
      by (destruct (day <? 1) eqn:E;
          [apply Z.ltb_lt in E|apply Z.ltb_ge in E]; lia).
    assert (Hahead : 0 <= (if day <? 1 then -7 else 0) + 6 - (day - 1) <= 6)
      by (destruct (day <? 1) eqn:E;
          [apply Z.ltb_lt in E|apply Z.ltb_ge in E]; lia).
    split; [apply window_around; lia|].
    split; [apply startOfDay_idem|]. split; [apply endOfDay_idem|].
    split; [|split; [exact Hmon|]].
    + unfold differenceInCalendarDays.
      rewrite !localDay_startOfDay, localDay_endOfDay, !localDay_addDays.
      destruct (day <? 1); lia.
    + unfold getDay. rewrite localDay_endOfDay, localDay_addDays.
      unfold day, getDay in *.
      pose proof (Z.div_mod (localDay now + 4) 7 ltac:(lia)) as Hdm.
      set (m := (localDay now + 4) mod 7) in *.
      set (q := (localDay now + 4) / 7) in *.
      destruct (m <? 1) eqn:E; [apply Z.ltb_lt in E|apply Z.ltb_ge in E].
      * replace (localDay now + (-7 + 6 - (m - 1)) + 4) with (0 + q * 7) by lia.
        now rewrite Z.mod_add by lia.
      * replace (localDay now + (0 + 6 - (m - 1)) + 4) with (0 + (q + 1) * 7)
          by lia.
        now rewrite Z.mod_add by lia.
  - pose proof (civil_valid_all (localDay now)) as Hv.
    pose proof (daysInMonth_range (getFullYear now) (getMonth now + 1)) as Hr.
    pose proof (civil_month_day now 0 ltac:(lia)) as H0.
    rewrite Z.add_0_r in H0.
    assert (Hdom : 1 <= getDate now <=
                   daysInMonth (getFullYear now) (getMonth now + 1)).
    { unfold getDate, getFullYear, getMonth.
      destruct (civil (localDay now)) as [[y m] d]. cbn in *.
      now replace (m - 1 + 1) with m by lia. }
    split.
    { unfold startOfMonth, endOfMonth.
      replace (1 - getDate now) with (- (getDate now - 1)) by lia.
      apply window_around; lia. }
    split; [apply startOfDay_idem|]. split; [apply endOfDay_idem|].
    split; [apply month_window_days|].
    assert (Hc : civil (localDay (startOfMonth now)) =
                 (getFullYear now, getMonth now + 1, 1)) by now rewrite H0.
    split; [|split];
      [unfold getDate|unfold getMonth at 1|unfold getFullYear at 1];
      rewrite Hc; cbn; lia.
Qed.

(** ** Date buckets at the edges of the window *)

Lemma filter_ext_in {A} (P Q : A -> Prop) `{forall x, Decision (P x)}
    `{forall x, Decision (Q x)} (l : list A) :
  (forall x, x ∈ l -> P x <-> Q x) -> filter P l = filter Q l.
Proof.
  induction l as [|x l IH]; intros Hall; [done|].
  assert (Hx : P x <-> Q x) by (apply Hall; left).
  assert (Hl : filter P l = filter Q l)
    by (apply IH; intros y Hy; apply Hall; now right).
  destruct (decide (P x)) as [HP|HP].
  - rewrite !filter_cons_True by tauto. now f_equal.
  - rewrite !filter_cons_False by tauto. done.
Qed.

(** A window whose end lies on an earlier calendar day than its start
    gets no bucket at all, whatever the logs: the answer is the empty
    list, not an error. *)
Theorem inverted_window_has_no_buckets (logs : list MoodLog.t)
    (startDate endDate : Date) :
  localDay endDate < localDay startDate ->
  groupLogsByDate logs startDate endDate = Return [].
Proof.
  intros Hlt.
  assert (Hn : upto (differenceInCalendarDays endDate startDate + 1) = []).
  { unfold upto, differenceInCalendarDays. rewrite !localDay_startOfDay.
    unfold seqZ. now replace (Z.to_nat _) with 0%nat by lia. }
  rewrite groupLogsByDate_eq; rewrite Hn; [done|constructor].
Qed.

Lemma inverted_window_has_no_buckets_witness :
  let log :=
    MoodLog.mk "log-1" "user-1"
      (UserMoods.mk "user-mood-1" (Mood.mk "Happy" ":)" "#FFD700"))
      (20759 * MS_PER_DAY) in
  groupLogsByDate [log] (20759 * MS_PER_DAY) (20758 * MS_PER_DAY + 5) =
  Return [].
Proof.
  cbv zeta. apply inverted_window_has_no_buckets. vm_compute. reflexivity.
Defined.

(** With the window and the logs dated from 1970 on, every bucket stands
    for one calendar day of the window and holds exactly the logs of
    that day, and a log is in some bucket exactly when its day lies in
    the window: logs outside the window are dropped without an error. *)
Theorem date_buckets_by_calendar_day (logs : list MoodLog.t)
    (startDate endDate : Date) :
  0 <= localDay startDate ->
  (forall log, log ∈ logs -> 0 <= localDay (MoodLog.moodDate log)) ->
  exists buckets,
    groupLogsByDate logs startDate endDate = Return buckets /\
    (forall g, g ∈ buckets ->
       localDay startDate <= localDay (DateGroup.dateObj g) <= localDay endDate /\
       DateGroup.logs g =
         filter (fun log =>
                   localDay (MoodLog.moodDate log) =
                   localDay (DateGroup.dateObj g)) logs /\
       DateGroup.count g = Z.of_nat (length (DateGroup.logs g))) /\
    (forall log, log ∈ logs ->
       (exists g, g ∈ buckets /\ log ∈ DateGroup.logs g) <->
       localDay startDate <= localDay (MoodLog.moodDate log) <= localDay endDate).
Proof.
  intros Hs Hlogs. eexists.
  split; [now apply groupLogsByDate_eq, window_keys_NoDup|].
  set (n := differenceInCalendarDays endDate startDate + 1).
  assert (Hn : n = localDay endDate - localDay startDate + 1)
    by (unfold n, differenceInCalendarDays; now rewrite !localDay_startOfDay).
  assert (Hkey : forall i log, 0 <= i -> log ∈ logs ->
            format (MoodLog.moodDate log) = format (addDays startDate i) <->
            localDay (MoodLog.moodDate log) = localDay (addDays startDate i)).
  { intros i log Hi Hin. unfold format. rewrite localDay_addDays. split.
    - intros Heq. apply formatDay_inj in Heq; [done| |lia]. now apply Hlogs.
    - now intros ->. }
  split.
  - intros g Hg. apply list_elem_of_fmap in Hg as (i & -> & Hi).
    apply elem_of_upto in Hi. cbn [DateGroup.dateObj DateGroup.logs DateGroup.count].
    rewrite localDay_addDays. split; [lia|]. split; [|done].
    rewrite <- (localDay_addDays startDate i).
    apply filter_ext_in. intros log Hin. apply Hkey; [lia|done].
  - intros log Hin. split.
    + intros (g & Hg & Hlog). apply list_elem_of_fmap in Hg as (i & -> & Hi).
      apply elem_of_upto in Hi. cbn [DateGroup.logs] in Hlog.
      apply list_elem_of_filter in Hlog as [Heq _].
      apply Hkey in Heq; [|lia|done]. rewrite localDay_addDays in Heq. lia.
    + intros Hin_window.
      set (i := localDay (MoodLog.moodDate log) - localDay startDate).
      eexists. split.
      * apply list_elem_of_fmap. exists i. split; [reflexivity|].
        apply elem_of_upto. unfold i. lia.
      * cbn [DateGroup.logs]. apply list_elem_of_filter. split; [|done].
        unfold format. rewrite localDay_addDays. f_equal. unfold i. lia.
Qed.

Lemma date_buckets_by_calendar_day_witness :
  let mood := UserMoods.mk "user-mood-1" (Mood.mk "Happy" ":)" "#FFD700") in
  let inside := MoodLog.mk "log-1" "user-1" mood (20759 * MS_PER_DAY + 7) in
  let outside := MoodLog.mk "log-2" "user-1" mood (20790 * MS_PER_DAY) in
  let logs := [inside; outside] in
  let startDate := 20758 * MS_PER_DAY in
  let endDate := 20760 * MS_PER_DAY in
  exists buckets,
    groupLogsByDate logs startDate endDate = Return buckets /\
    (forall g, g ∈ buckets ->
       localDay startDate <= localDay (DateGroup.dateObj g) <= localDay endDate /\
       DateGroup.logs g =
         filter (fun log =>
                   localDay (MoodLog.moodDate log) =
                   localDay (DateGroup.dateObj g)) logs /\
       DateGroup.count g = Z.of_nat (length (DateGroup.logs g))) /\
    (forall log, log ∈ logs ->
       (exists g, g ∈ buckets /\ log ∈ DateGroup.logs g) <->
       localDay startDate <= localDay (MoodLog.moodDate log) <= localDay endDate).
Proof.
  cbv zeta. apply date_buckets_by_calendar_day.
  - vm_compute. discriminate.
  - intros log Hlog.
    apply elem_of_cons in Hlog as [->|Hlog];
      [|apply list_elem_of_singleton in Hlog; subst log];
      vm_compute; discriminate.
Defined.

(** ** What the summary counts *)

Lemma sumCounts_insert_fresh (m : gmap string MoodCount.t) k entry :
  m !! k = None ->
  sumCounts (<[k := entry]> m) = MoodCount.count entry + sumCounts m.
Proof.
  intros Hk. unfold sumCounts. rewrite map_fold_insert_L; [done| |done].
  intros. lia.
Qed.

Lemma sumCounts_insert (m : gmap string MoodCount.t) k entry old :
  m !! k = Some old ->
  sumCounts (<[k := entry]> m) =
  sumCounts m + MoodCount.count entry - MoodCount.count old.
Proof.
  intros Hk.
  rewrite <- (insert_delete_eq m k entry).
  rewrite <- (insert_delete_id m k old Hk) at 2.
  rewrite !sumCounts_insert_fresh by apply lookup_delete_eq. lia.
Qed.

Lemma sumCounts_fmap (f : MoodCount.t -> MoodCount.t)
    (m : gmap string MoodCount.t) :
  (forall entry, MoodCount.count (f entry) = MoodCount.count entry) ->
  sumCounts (f <$> m) = sumCounts m.
Proof.
  intros Hf. induction m as [|k entry m Hk IH] using map_ind.
  - now rewrite fmap_empty.
  - rewrite fmap_insert, !sumCounts_insert_fresh, Hf, IH; [done..|].
    now rewrite lookup_fmap, Hk.
Qed.

(** One round of the counting loop adds one to the sum, unless the
    log's mood name is inherited from [Object.prototype]. *)
Lemma sumCounts_countMood (logs : list MoodLog.t) (log : MoodLog.t) :
  sumCounts (countMood (fold_left countMood logs ∅) log) =
  sumCounts (fold_left countMood logs ∅) +
  (if decide (moodNameOf log ∈ objectPrototypeKeys) then 0 else 1).
Proof.
  pose proof (countMood_fold_lookup logs (moodNameOf log)) as Hm.
  set (m := fold_left countMood logs ∅) in *.
  unfold countMood. cbv zeta. fold (moodNameOf log). unfold js_lookup.
  destruct (decide (moodNameOf log ∈ objectPrototypeKeys)) as [Hin|Hnin].
  - rewrite Hm, bool_decide_eq_true_2 by done. rewrite Hm. lia.
  - destruct (m !! moodNameOf log) as [old|] eqn:Hold.
    + rewrite Hold. erewrite sumCounts_insert by done. cbn. lia.
    + rewrite bool_decide_eq_false_2 by done.
      rewrite lookup_insert_eq, insert_insert_eq.
      rewrite sumCounts_insert_fresh by done. cbn. lia.
Qed.

(** The counts of the summary add up to the number of logs whose mood
    name is not a member of [Object.prototype]: never more than
    [totalLogs], and exactly [totalLogs] when no log carries such a
    name. *)
Theorem summary_counts_add_up (find : Date -> Date -> list MoodLog.t)
    (now : Date) (period : Period) :
  let logs := find (periodRange period now).1 (periodRange period now).2 in
  let summary := getMoodSummary find now period in
  sumCounts (Summary.moodCounts summary) =
    Z.of_nat (length (filter (fun log => moodNameOf log ∉ objectPrototypeKeys)
                        logs)) /\
  sumCounts (Summary.moodCounts summary) <= Summary.totalLogs summary /\
  ((forall log, log ∈ logs -> moodNameOf log ∉ objectPrototypeKeys) ->
   sumCounts (Summary.moodCounts summary) = Summary.totalLogs summary).
Proof.
  unfold getMoodSummary. destruct (periodRange period now) as [s e].
  cbn [fst snd]. cbv zeta. cbn [Summary.totalLogs Summary.moodCounts].
  rewrite sumCounts_fmap by done.
  assert (Hsum : sumCounts (fold_left countMood (find s e) ∅) =
                 Z.of_nat (length (filter
                   (fun log => moodNameOf log ∉ objectPrototypeKeys) (find s e)))).
  { induction (find s e) as [|log logs IH] using rev_ind; [done|].
    rewrite fold_left_app. cbn [fold_left].
    rewrite sumCounts_countMood, IH, filter_app, length_app.
    destruct (decide (moodNameOf log ∈ objectPrototypeKeys)).
    - rewrite filter_cons_False by tauto. cbn. lia.
    - rewrite filter_cons_True by done. cbn. lia. }
  split; [done|]. split.
  - rewrite Hsum. pose proof (length_filter
      (fun log => moodNameOf log ∉ objectPrototypeKeys) (find s e)). lia.
  - intros Hall. rewrite Hsum. now rewrite filter_all.
Qed.

(** ** The endpoints *)

Lemma Period_of_string_Some (period : string) (p : Period) :
  Period_of_string period = Some p <-> period = Period_to_string p.
Proof.
  unfold Period_of_string. split.
  - repeat case_bool_decide; intros [= <-]; done.
  - intros ->. now destruct p.
Qed.

Lemma Period_of_string_None (period : string) :
  Period_of_string period = None <-> period ∉ ["day"; "week"; "month"].
Proof.
  unfold Period_of_string. rewrite !not_elem_of_cons.
  repeat case_bool_decide; split; intros Hp; try done;
    try (destruct Hp as (? & ? & ? & ?); done).
  repeat split; try done. apply not_elem_of_nil.
Qed.

(** The two period endpoints answer 400 for every string other than
    [day], [week] and [month], upper-case spellings included; for these
    three they answer with the service's statistics and summary of that
    period, and never with an error. *)
Theorem period_endpoints_validate (find : Date -> Date -> list MoodLog.t)
    (now : Date) (period : string) :
  ((period ∉ ["day"; "week"; "month"]) /\
   (exists e, MoodLogController.getMoodStats find now period = Http.Throw e /\
              Http.status e = 400) /\
   (exists e, MoodLogController.getMoodSummary find now period = Http.Throw e /\
              Http.status e = 400)) \/
  (exists p stats,
     period = Period_to_string p /\
     getMoodStatsByPeriod find now p = Body stats /\
     MoodLogController.getMoodStats find now period = Http.Ok stats /\
     Stats.period stats = p /\
     MoodLogController.getMoodSummary find now period =
       Http.Ok (getMoodSummary find now p)).
Proof.
  unfold MoodLogController.getMoodStats, MoodLogController.getMoodSummary.
  destruct (Period_of_string period) as [p|] eqn:Hp.
  - right. apply Period_of_string_Some in Hp.
    destruct (getMoodStatsByPeriod_answers find now p) as (stats & Hs & Hper & _).
    exists p, stats. rewrite Hs. done.
  - left. apply Period_of_string_None in Hp.
    split; [done|]. split; eexists; split; reflexivity.
Qed.

(** Reading one log by id: an id that is not a UUID is answered 400 by
    the pipe, before the table is read.  For a UUID the endpoint returns
    a log only if it is the row with that id and belongs to the caller;
    it answers 404 when no row has the id; and when the row belongs to
    someone else, the service's 403 does not reach the caller, who is
    answered 500. *)
Theorem findOne_access (isUUID : string -> bool) (table : list MoodLog.t)
    (id user : string) :
  match MoodLogController.findOne isUUID table id user with
  | Http.Ok moodLog =>
      isUUID id = true /\
      moodLog ∈ table /\ MoodLog.id moodLog = id /\
      MoodLog.userId moodLog = user /\
      findMoodLogById table id user = Http.Ok moodLog
  | Http.Throw e =>
      (Http.status e = 400 /\ isUUID id = false) \/
      (Http.status e = 404 /\ isUUID id = true /\
       forall row, row ∈ table -> MoodLog.id row <> id) \/
      (Http.status e = 500 /\ isUUID id = true /\
       (exists row, row ∈ table /\ MoodLog.id row = id /\
                    MoodLog.userId row <> user) /\
       exists e', findMoodLogById table id user = Http.Throw e' /\
                  Http.status e' = 403)
  end.
Proof.
  unfold MoodLogController.findOne.
  destruct (isUUID id) eqn:Hid; cbn [negb]; [|now left].
  unfold findMoodLogById.
  destruct (head (filter _ table)) as [row|] eqn:Hhead.
  - assert (Hrow : row ∈ filter (fun row => MoodLog.id row = id) table).
    { destruct (filter _ table) as [|r rs]; [done|].
      injection Hhead as ->. left. }
    apply list_elem_of_filter in Hrow as [Hrid Hin].
    case_bool_decide as Huser.
    + right. right. split; [done|]. split; [done|]. split; [now exists row|].
      eexists. split; reflexivity.
    + done.
  - right. left. split; [done|]. split; [done|]. intros row Hin Hrid.
    apply head_None in Hhead.
    eapply (filter_nil_not_elem_of _ table row Hhead); eauto.
Qed.

(** ** Instances of the properties stated earlier *)

Lemma repo_reachable_invariant_witness :
  let tz := 2 * MS_PER_HOUR in
  let row := persist (updateUserStreak tz ∅ "user-1" (20759 * MS_PER_DAY)).2 in
  StreakRecord.userId row = "user-1" /\
  1 <= StreakRecord.currentStreak row <= StreakRecord.longestStreak row /\
  streak_good (storedDays row).
Proof.
  cbv zeta.
  destruct (repo_reachable_invariant (2 * MS_PER_HOUR)
              (updateUserStreak (2 * MS_PER_HOUR) ∅ "user-1"
                 (20759 * MS_PER_DAY)).1
              (repo_update (2 * MS_PER_HOUR) ∅ "user-1" (20759 * MS_PER_DAY)
                 (repo_empty (2 * MS_PER_HOUR)))
              "user-1" _ (lookup_insert_eq _ _ _))
    as (Hu & Hc & Hgood).
  split; [exact Hu|]. split; [exact Hc|].
  apply Hgood. unfold MS_PER_HOUR, MS_PER_DAY. lia.
Defined.

Lemma getMoodSummary_empty_witness :
  let summary := getMoodSummary (fun _ _ => []) (20759 * MS_PER_DAY) PeriodWeek in
  Summary.totalLogs summary = 0 /\
  Summary.moodCounts summary = ∅ /\
  Summary.categories summary = CatString <$> daysOfWeek /\
  Summary.categories summary <> [].
Proof.
  exact (getMoodSummary_empty (fun _ _ => []) (20759 * MS_PER_DAY) PeriodWeek
           eq_refl).
Defined.

Lemma percentageOf_nearest_witness :
  Z.abs (2 * 200 * percentageOf 29 200 - 200 * 29) <= 200.
Proof. apply (percentageOf_nearest 29 200); lia. Defined.
